(** * insights_messaging.builder: manifest-to-pipeline assembly

    A shallow embedding of [AppBuilder] (src/insights_messaging/builder.py).

    The builder reads a manifest, loads plugin packages into the insights
    registry ([dr]), applies configuration, computes the dependency closure
    of the target components, and constructs publisher, downloader, engine,
    consumer and watchers.  Everything the builder calls but does not
    define (the registry, the classes it instantiates, the watcher class
    hierarchy) is an external collaborator: it appears here as the
    [Insights] interface, and every call the builder makes to it is
    recorded, in program order, in a log. *)

From Stdlib Require Import String List ZArith Lia.
From stdpp Require Import base option list strings gmap.
Import ListNotations.

Open Scope string_scope.
Open Scope list_scope.

Set Warnings "-register-all".

(** ** Data model *)

(** A registered component is the Python object [dr] hands out; it is
    identified here by a key.  Its fully-qualified name is whatever
    [dr.get_name] answers for it (see [Insights]). *)
Abbreviation component := string (only parsing).

(** [dr.get_dependency_graph] answers a dict from component to the set of
    its dependencies. *)
Abbreviation DependencyGraph := (gmap string (gset string)) (only parsing).

(** The callables [builder.py] can invoke: the five classes it imports at
    the top of the module, and any other object the registry knows
    ([Registered]).  [dr.get_component] answers a callable: a name may well
    resolve to one of the five imported classes themselves (the default
    manifest names three of them). *)
Inductive callable : Type :=
| HumanReadableFormat
| LocalFS
| Engine
| Interactive
| StdOut
| Registered (c : component).

(** Python values that flow through the builder: manifest data (the
    [args] and [kwargs] of a spec), class objects, dependency graphs, and
    the instances obtained by calling a class. *)
Inductive pyval : Type :=
| PNone
| PBool (b : bool)
| PInt (n : Z)
| PStr (s : string)
| PList (xs : list pyval)
| PDict (kvs : list (string * pyval))
| PGraph (g : DependencyGraph)
| PClass (f : callable)
| PInst (f : callable) (args : list pyval) (kwargs : list (string * pyval)).

(** The sub-mapping [{name, args?, kwargs?}] used for every pluggable slot. *)
Record ComponentSpec : Type := {
  name : string;
  args : option (list pyval);
  kwargs : option (list (string * pyval))
}.

(** The [plugins] section. *)
Record Plugins : Type := {
  packages : option (list string);
  default_component_enabled : option bool
}.

(** One entry of the [configs] section. *)
Record ConfigSpec : Type := {
  cfg_name : string;
  cfg_enabled : option bool
}.

(** The [service] section; an absent key is [None]. *)
Record Service : Type := {
  consumer : option ComponentSpec;
  publisher : option ComponentSpec;
  downloader : option ComponentSpec;
  format : option string;
  target_components : option (list string);
  watchers : option (list ComponentSpec)
}.

(** The manifest, already parsed into a mapping. *)
Record Manifest : Type := {
  m_plugins : option Plugins;
  m_configs : option (list ConfigSpec);
  m_service : option Service
}.

(** The empty dict [{}] read as each of the three sections. *)
Definition no_plugins : Plugins :=
  {| packages := None; default_component_enabled := None |}.

Definition no_service : Service :=
  {| consumer := None; publisher := None; downloader := None;
     format := None; target_components := None; watchers := None |}.

Definition no_configs : list ConfigSpec := [].

Definition spec_of (n : string) : ComponentSpec :=
  {| name := n; args := None; kwargs := None |}.

(** [AppBuilder.default_manifest], as the YAML text parses. *)
Definition default_manifest : Manifest :=
  {| m_plugins := Some
       {| packages := Some ["insights.specs.default";
                            "insights.specs.insights_archive";
                            "examples.rules.bash_version"];
          default_component_enabled := Some true |};
     m_configs := Some
       [ {| cfg_name := "examples.rules.bash_version.report";
            cfg_enabled := Some true |} ];
     m_service := Some
       {| consumer := Some (spec_of "insights_messaging.consumers.cli.Interactive");
          publisher := Some (spec_of "insights_messaging.publishers.cli.StdOut");
          downloader := Some (spec_of "insights_messaging.downloaders.localfs.LocalFS");
          format := Some "insights_messaging.formats.rhel_stats.Stats";
          target_components := Some ["examples.rules.bash_version.report"];
          watchers := Some [spec_of "insights_messaging.watchers.stats.LocalStatWatcher"] |} |}.

(** The builder object: the attributes [__init__] sets. *)
Record AppBuilder : Type := {
  manifest : Manifest;
  plugins : Plugins;
  service : Service;
  configs : list ConfigSpec
}.

(** [AppBuilder.__init__], for a manifest given as a mapping ([Some m]) or
    omitted ([None]). *)
Definition __init__ (m : option Manifest) : AppBuilder :=
  let manifest := match m with None => default_manifest | Some m => m end in
  {| manifest := manifest;
     plugins := default no_plugins (m_plugins manifest);
     service := default no_service (m_service manifest);
     configs := default no_configs (m_configs manifest) |}.

(** ** The external collaborators *)

(** The two watcher base classes [isinstance] is asked about. *)
Inductive watcher_class : Type := EngineWatcher | ConsumerWatcher.

(** What the builder uses of [insights] and of the watcher hierarchy.
    [dr] is the state of the process-wide registry.
    [load_components] answers [None] when the call raises. *)
Class Insights : Type := {
  dr : Type;
  load_components : string -> bool -> dr -> option dr;
  apply_default_enabled : Plugins -> dr -> dr;
  apply_configs : Plugins -> dr -> dr;
  get_component : dr -> string -> option callable;
  get_name : component -> string;
  get_dependency_graph : dr -> component -> DependencyGraph;
  DELEGATES : dr -> list component;
  isinstance : pyval -> watcher_class -> bool
}.

(** Calls that leave the builder, in the order they are made. *)
Inductive event : Type :=
| EvLoadComponents (pkg : string) (continue_on_error : bool)
| EvApplyDefaultEnabled (arg : Plugins)
| EvApplyConfigs (arg : Plugins)
| EvGetComponent (n : string)
| EvCall (f : callable) (args : list pyval) (kwargs : list (string * pyval))
| EvWatch (w : pyval) (target : pyval).

(** What can be raised. *)
Inductive exn : Type :=
| Exception (msg : string)
| LoadFailure (pkg : string).

Inductive result (A : Type) : Type :=
| Ok (a : A)
| Raise (e : exn).
Arguments Ok {A} a.
Arguments Raise {A} e.

Section Builder.
Context `{I : Insights}.

(** ** State and exceptions *)

Record world : Type := {
  registry : dr;
  log : list event
}.

Definition M (A : Type) : Type := world -> result A * world.

Definition ret {A} (a : A) : M A := fun w => (Ok a, w).

Definition bind {A B} (m : M A) (k : A -> M B) : M B :=
  fun w => match m w with
           | (Ok a, w') => k a w'
           | (Raise e, w') => (Raise e, w')
           end.

Definition raise {A} (e : exn) : M A := fun w => (Raise e, w).

Definition emit (e : event) : M unit :=
  fun w => (Ok tt, {| registry := registry w; log := log w ++ [e] |}).

Notation "'let*' x ':=' m 'in' k" := (bind m (fun x => k))
  (at level 10, x name, m at level 100, k at level 200, only parsing).
Notation "m '>>' k" := (bind m (fun _ => k))
  (at level 100, k at level 200, right associativity, only parsing).

(** [for x in xs: body(x)] *)
Fixpoint for_each {A} (xs : list A) (body : A -> M unit) : M unit :=
  match xs with
  | [] => ret tt
  | x :: xs => body x >> for_each xs body
  end.

(** [[f(x) for x in xs]] *)
Fixpoint comprehension {A B} (f : A -> M B) (xs : list A) : M (list B) :=
  match xs with
  | [] => ret []
  | x :: xs => let* y := f x in
               let* ys := comprehension f xs in
               ret (y :: ys)
  end.

Definition when (b : bool) (m : M unit) : M unit :=
  if b then m else ret tt.

(** ** Calls to the collaborators *)

Definition dr_load_components (p : string) (continue_on_error : bool) : M unit :=
  emit (EvLoadComponents p continue_on_error) >>
  fun w => match load_components p continue_on_error (registry w) with
           | Some r => (Ok tt, {| registry := r; log := log w |})
           | None => (Raise (LoadFailure p), w)
           end.

Definition insights_apply_default_enabled (arg : Plugins) : M unit :=
  emit (EvApplyDefaultEnabled arg) >>
  fun w => (Ok tt, {| registry := apply_default_enabled arg (registry w);
                      log := log w |}).

Definition insights_apply_configs (arg : Plugins) : M unit :=
  emit (EvApplyConfigs arg) >>
  fun w => (Ok tt, {| registry := apply_configs arg (registry w);
                      log := log w |}).

Definition dr_get_component (n : string) : M (option callable) :=
  emit (EvGetComponent n) >>
  fun w => (Ok (get_component (registry w) n), w).

(** Calling [f] with positional [args] and keyword [kwargs]: the call is
    logged and answers the instance. *)
Definition call (f : callable) (args : list pyval)
    (kwargs : list (string * pyval)) : M pyval :=
  emit (EvCall f args kwargs) >> ret (PInst f args kwargs).

(** [w.watch(target)] *)
Definition watch (w target : pyval) : M unit := emit (EvWatch w target).

(** ** AppBuilder *)

(** [f"Couldn't find {name}."] *)
Definition couldnt_find (n : string) : string :=
  "Couldn't find " ++ n ++ ".".

Fixpoint _load_packages (pkgs : list string) : M unit :=
  match pkgs with
  | [] => ret tt
  | p :: pkgs => dr_load_components p false >> _load_packages pkgs
  end.

Definition _load_plugins (self : AppBuilder) : M unit :=
  _load_packages (default [] (packages (plugins self))).

Definition _get_format (self : AppBuilder) : M callable :=
  match format (service self) with
  | None => ret HumanReadableFormat
  | Some name =>
      let* fmt := dr_get_component name in
      match fmt with
      | None => raise (Exception (couldnt_find name))
      | Some fmt => ret fmt
      end
  end.

Definition _get_consumer (self : AppBuilder)
    (publisher downloader engine : pyval) : M pyval :=
  match consumer (service self) with
  | None => call Interactive [publisher; downloader; engine] []
  | Some spec =>
      let* Consumer := dr_get_component (name spec) in
      match Consumer with
      | None => raise (Exception (couldnt_find (name spec)))
      | Some Consumer =>
          let args := default [] (args spec) in
          let kwargs := default [] (kwargs spec) in
          call Consumer
               (publisher :: downloader :: engine :: args) kwargs
      end
  end.

Definition _get_publisher (self : AppBuilder) : M pyval :=
  match publisher (service self) with
  | None => call StdOut [] []
  | Some spec =>
      let* Publisher := dr_get_component (name spec) in
      match Publisher with
      | None => raise (Exception (couldnt_find (name spec)))
      | Some Publisher =>
          let args := default [] (args spec) in
          let kwargs := default [] (kwargs spec) in
          call Publisher args kwargs
      end
  end.

Definition _load (spec : ComponentSpec) : M pyval :=
  let* comp := dr_get_component (name spec) in
  match comp with
  | None => raise (Exception (couldnt_find (name spec)))
  | Some comp =>
      let args := default [] (args spec) in
      let kwargs := default [] (kwargs spec) in
      call comp args kwargs
  end.

Definition _get_downloader (self : AppBuilder) : M pyval :=
  match downloader (service self) with
  | None => ret (PClass LocalFS)
  | Some spec => _load spec
  end.

Definition _get_watchers (self : AppBuilder) : M (list pyval) :=
  match watchers (service self) with
  | None => ret []
  | Some ws => comprehension _load ws
  end.

(** [s.startswith(tc)] for a tuple [tc] of prefixes. *)
Definition startswith (s : string) (tc : list string) : bool :=
  existsb (fun p => String.prefix p s) tc.

(** [graph.update(d)]: the entries of [d] win. *)
Definition update (graph d : DependencyGraph) : DependencyGraph := d ∪ graph.

(** The loop over [dr.DELEGATES] of [_get_target_components]. *)
Fixpoint target_loop (r : dr) (tc : list string) (cs : list component)
    (graph : DependencyGraph) : DependencyGraph :=
  match cs with
  | [] => graph
  | c :: cs =>
      target_loop r tc cs
        (if startswith (get_name c) tc
         then update graph (get_dependency_graph r c)
         else graph)
  end.

(** [graph or None] *)
Definition or_None (graph : DependencyGraph) : option DependencyGraph :=
 
  if decide (graph = ∅) then None else Some graph.

Definition _get_target_components (self : AppBuilder)
    : M (option DependencyGraph) :=
  fun w =>
    let tc := default [] (target_components (service self)) in
    match tc with
    | [] => (Ok None, w)
    | _ :: _ =>
        let graph := target_loop (registry w) tc (DELEGATES (registry w)) ∅ in
        (Ok (or_None graph), w)
    end.

(** [None] or a dict, as handed to [Engine]. *)
Definition py_targets (t : option DependencyGraph) : pyval :=
  match t with
  | None => PNone
  | Some g => PGraph g
  end.

(** The body of the loop over the watchers in [build_app]. *)
Definition attach (engine consumer w : pyval) : M unit :=
  when (isinstance w EngineWatcher) (watch w engine) >>
  when (isinstance w ConsumerWatcher) (watch w consumer).

Definition build_app (self : AppBuilder) : M pyval :=
  _load_plugins self >>
  insights_apply_default_enabled (plugins self) >>
  insights_apply_configs (plugins self) >>
  let* target_components := _get_target_components self in
  let* publisher := _get_publisher self in
  let* downloader := _get_downloader self in
  let* fmt := _get_format self in
  let* engine := call Engine [py_targets target_components; PClass fmt] [] in
  let* consumer := _get_consumer self publisher downloader engine in
  let* ws := _get_watchers self in
  for_each ws (attach engine consumer) >>
  ret consumer.

End Builder.

(** ** Vocabulary for the properties *)

Section Vocabulary.
Context `{I : Insights}.

(** The world [w] after the calls [evs] have been made (registry untouched). *)
Definition logged (w : world) (evs : list event) : world :=
  {| registry := registry w; log := log w ++ evs |}.

(** *** The two halves of [build_app] *)

(** Lines 115-117: load the plugins, then apply the configuration. *)
Definition configure (self : AppBuilder) : M unit :=
  bind (_load_plugins self) (fun _ =>
  bind (insights_apply_default_enabled (plugins self)) (fun _ =>
  insights_apply_configs (plugins self))).

(** Lines 119-131: resolve and wire the pipeline. *)
Definition assemble (self : AppBuilder) : M pyval :=
  bind (_get_target_components self) (fun target_components =>
  bind (_get_publisher self) (fun publisher =>
  bind (_get_downloader self) (fun downloader =>
  bind (_get_format self) (fun fmt =>
  bind (call Engine [py_targets target_components; PClass fmt] []) (fun engine =>
  bind (_get_consumer self publisher downloader engine) (fun consumer =>
  bind (_get_watchers self) (fun ws =>
  bind (for_each ws (attach engine consumer)) (fun _ =>
  ret consumer)))))))).

(** The [load_components] calls for [pkgs], as [_load_packages] makes
    them. *)
Definition load_events (pkgs : list string) : list event :=
  map (fun p => EvLoadComponents p false) pkgs.

(** [self] with the [configs] attribute replaced. *)
Definition with_configs (self : AppBuilder) (cs : list ConfigSpec) : AppBuilder :=
  {| manifest := manifest self; plugins := plugins self;
     service := service self; configs := cs |}.

(** A manifest that disables one rule through [configs] and loads no
    package. *)
Definition manifest_with_override : Manifest :=
  {| m_plugins := Some {| packages := Some [];
                          default_component_enabled := Some true |};
     m_configs := Some [ {| cfg_name := "examples.rules.bash_version.report";
                            cfg_enabled := Some false |} ];
     m_service := None |}.

(** The components the target prefixes select: "every component currently
    registered whose fully-qualified name starts with one of the target
    prefixes". *)
Definition selected (r : dr) (tc : list string) : list component :=
  List.filter (fun c => startswith (get_name c) tc) (DELEGATES r).

(** The merge of the dependency subgraphs of [cs], in order: "merge that
    component's full dependency subgraph into an accumulating mapping". *)
Definition merge_subgraphs (r : dr) (cs : list component) : DependencyGraph :=
  foldl (fun acc c => update acc (get_dependency_graph r c)) ∅ cs.

(** [self] with [target_components] removed from the [service] section. *)
Definition without_targets (self : AppBuilder) : AppBuilder :=
  {| manifest := manifest self; plugins := plugins self;
     service := {| consumer := consumer (service self);
                   publisher := publisher (service self);
                   downloader := downloader (service self);
                   format := format (service self);
                   target_components := None;
                   watchers := watchers (service self) |};
     configs := configs self |}.

(** *** Resolving a spec *)

(** The instance a spec yields once its name resolved to [c], with the
    positional arguments [pre] placed before the spec's own. *)
Definition instance_of (c : callable) (pre : list pyval)
    (spec : ComponentSpec) : pyval :=
  PInst c (pre ++ default [] (args spec)) (default [] (kwargs spec)).

Definition construction_of (c : callable) (pre : list pyval)
    (spec : ComponentSpec) : event :=
  EvCall c (pre ++ default [] (args spec)) (default [] (kwargs spec)).

(** The calls made by [[self._load(w) for w in specs]]: one lookup and one
    construction per spec, up to the first name that does not resolve. *)
Fixpoint load_all_events (r : dr) (specs : list ComponentSpec) : list event :=
  match specs with
  | [] => []
  | spec :: specs =>
      match get_component r (name spec) with
      | Some c => EvGetComponent (name spec) :: construction_of c [] spec
                    :: load_all_events r specs
      | None => [EvGetComponent (name spec)]
      end
  end.

Fixpoint load_all_result (r : dr) (specs : list ComponentSpec)
    : result (list pyval) :=
  match specs with
  | [] => Ok []
  | spec :: specs =>
      match get_component r (name spec) with
      | Some c => match load_all_result r specs with
                  | Ok vs => Ok (instance_of c [] spec :: vs)
                  | Raise e => Raise e
                  end
      | None => Raise (Exception (couldnt_find (name spec)))
      end
  end.

(** The first of [names] that [dr.get_component] does not find. *)
Definition first_unresolved (r : dr) (names : list string) : option string :=
  List.find (fun n => match get_component r n with
                      | None => true
                      | Some _ => false
                      end) names.

(** *** The watcher loop *)

(** The calls [attach] makes for one watcher. *)
Definition watch_events (engine consumer w : pyval) : list event :=
  (if isinstance w EngineWatcher then [EvWatch w engine] else []) ++
  (if isinstance w ConsumerWatcher then [EvWatch w consumer] else []).

(** *** Names the manifest refers to *)

Definition spec_names (o : option ComponentSpec) : list string :=
  match o with
  | Some spec => [name spec]
  | None => []
  end.

(** The names of the four slots that are present, in the order [build_app]
    resolves them. *)
Definition slot_names (self : AppBuilder) : list string :=
  spec_names (publisher (service self)) ++
  spec_names (downloader (service self)) ++
  match format (service self) with Some n => [n] | None => [] end ++
  spec_names (consumer (service self)).

Definition watcher_names (self : AppBuilder) : list string :=
  map name (default [] (watchers (service self))).

Definition referenced (self : AppBuilder) : list string :=
  slot_names self ++ watcher_names self.

(** [f] is what some name of the manifest resolves to. *)
Definition named_by_manifest (self : AppBuilder) (r : dr) (f : callable) : Prop :=
  exists n, In n (referenced self) /\ get_component r n = Some f.

(** A call made for a slot or a watcher: of a default of the builder, or of
    what a name of the manifest resolved to. *)
Definition spec_call (self : AppBuilder) (r : dr) (e : event) : Prop :=
  match e with
  | EvCall f _ _ => f = StdOut \/ f = Interactive \/ named_by_manifest self r f
  | _ => True
  end.



(** *** The assembly as a function of the registry

    Once the configuration is applied the registry no longer changes: each
    step of the assembly only reads it and appends its calls to the log.
    An [outcome] is what such a step answers, with the calls it made. *)

Definition outcome (A : Type) : Type := (result A * list event)%type.

Definition seq {A B} (o : outcome A) (k : A -> outcome B) : outcome B :=
  match o with
  | (Ok a, evs) => let (res, evs') := k a in (res, evs ++ evs')
  | (Raise e, evs) => (Raise e, evs)
  end.

(** [m] only reads the registry, and answers [o] of it. *)
Definition runs {A} (m : M A) (o : dr -> outcome A) : Prop :=
  forall w, m w = (fst (o (registry w)), logged w (snd (o (registry w)))).

(** Looking [spec] up and constructing it behind the arguments [pre]. *)
Definition resolve (r : dr) (spec : ComponentSpec) (pre : list pyval)
    : outcome pyval :=
  match get_component r (name spec) with
  | Some c => (Ok (instance_of c pre spec),
               [EvGetComponent (name spec); construction_of c pre spec])
  | None => (Raise (Exception (couldnt_find (name spec))),
             [EvGetComponent (name spec)])
  end.

Definition closure_of (self : AppBuilder) (r : dr) : option DependencyGraph :=
  match default [] (target_components (service self)) with
  | [] => None
  | p :: tc => or_None (target_loop r (p :: tc) (DELEGATES r) ∅)
  end.

Definition publisher_outcome (self : AppBuilder) (r : dr) : outcome pyval :=
  match publisher (service self) with
  | None => (Ok (PInst StdOut [] []), [EvCall StdOut [] []])
  | Some spec => resolve r spec []
  end.

Definition downloader_outcome (self : AppBuilder) (r : dr) : outcome pyval :=
  match downloader (service self) with
  | None => (Ok (PClass LocalFS), [])
  | Some spec => resolve r spec []
  end.

Definition format_outcome (self : AppBuilder) (r : dr) : outcome callable :=
  match format (service self) with
  | None => (Ok HumanReadableFormat, [])
  | Some n =>
      match get_component r n with
      | Some fmt => (Ok fmt, [EvGetComponent n])
      | None => (Raise (Exception (couldnt_find n)), [EvGetComponent n])
      end
  end.

Definition consumer_outcome (self : AppBuilder) (r : dr)
    (publisher downloader engine : pyval) : outcome pyval :=
  match consumer (service self) with
  | None => (Ok (PInst Interactive [publisher; downloader; engine] []),
             [EvCall Interactive [publisher; downloader; engine] []])
  | Some spec => resolve r spec [publisher; downloader; engine]
  end.

Definition watchers_outcome (self : AppBuilder) (r : dr)
    : outcome (list pyval) :=
  let specs := default [] (watchers (service self)) in
  (load_all_result r specs, load_all_events r specs).

Definition assemble_outcome (self : AppBuilder) (r : dr) : outcome pyval :=
  seq (Ok (closure_of self r), []) (fun target_components =>
  seq (publisher_outcome self r) (fun publisher =>
  seq (downloader_outcome self r) (fun downloader =>
  seq (format_outcome self r) (fun fmt =>
  seq (Ok (PInst Engine [py_targets target_components; PClass fmt] []),
       [EvCall Engine [py_targets target_components; PClass fmt] []])
      (fun engine =>
  seq (consumer_outcome self r publisher downloader engine) (fun consumer =>
  seq (watchers_outcome self r) (fun ws =>
  seq (Ok tt, flat_map (watch_events engine consumer) ws) (fun _ =>
  (Ok consumer, []))))))))).

(** *** What a run of the assembly looks like *)

Definition engine_of (self : AppBuilder) (r : dr) (fmt : callable) : pyval :=
  PInst Engine [py_targets (closure_of self r); PClass fmt] [].

Definition engine_call (self : AppBuilder) (r : dr) (fmt : callable) : event :=
  EvCall Engine [py_targets (closure_of self r); PClass fmt] [].

(** [v] is an instance, and [evs] holds the call that constructed it. *)
Definition constructed (evs : list event) (v : pyval) : Prop :=
  exists f a k, v = PInst f a k /\ In (EvCall f a k) evs.

(** An event that does not attach a watcher. *)
Definition quiet (e : event) : Prop :=
  match e with
  | EvWatch _ _ => False
  | _ => True
  end.

(** The consumer call found in [evs] was given a publisher, a downloader
    and an engine each of which [evs] shows being constructed. *)
Definition all_four_constructed (evs : list event) : Prop :=
  exists f pub dl engine rest kw,
    In (EvCall f (pub :: dl :: engine :: rest) kw) evs /\
    constructed evs pub /\ constructed evs dl /\ constructed evs engine.

(** *** Registry lookups *)

(** The names [dr.get_component] was asked for, in order. *)
Definition lookups (evs : list event) : list string :=
  flat_map (fun e => match e with EvGetComponent n => [n] | _ => [] end) evs.

(** The lookups of [o] follow [names]: they are an initial part of it, and
    all of it when [o] succeeds. *)
Definition tracks {A} (o : outcome A) (names : list string) : Prop :=
  lookups (snd o) `prefix_of` names /\
  (forall a, fst o = Ok a -> lookups (snd o) = names).


(** *** Vocabulary for the further properties *)

(** A lookup in the registry or a call of a class. *)
Definition lookup_or_call (e : event) : Prop :=
  match e with
  | EvGetComponent _ | EvCall _ _ _ => True
  | _ => False
  end.

(** Any call the assembly (lines 119-131) can make. *)
Definition assembly_event (e : event) : Prop :=
  match e with
  | EvGetComponent _ | EvCall _ _ _ | EvWatch _ _ => True
  | _ => False
  end.

(** A spec with [pre] placed before its positional arguments. *)
Definition prepend_args (pre : list pyval) (spec : ComponentSpec) : ComponentSpec :=
  {| name := name spec;
     args := Some (pre ++ default [] (args spec));
     kwargs := kwargs spec |}.

(** The calls of an assembly that fails are lookups and constructions. *)
Definition fails_quietly {A} (o : outcome A) : Prop :=
  forall e, fst o = Raise e -> Forall lookup_or_call (snd o).

End Vocabulary.

(** ** A small registry to run the builder on *)

Module Toy.

(** Names [dr.get_component] resolves to components of their own. *)
Definition importable : list string :=
  ["pkg.a.x"; "pkg.a.y"; "pkg.b.z";
   "svc.Consumer"; "svc.Publisher"; "svc.Downloader"; "svc.Format";
   "svc.EngineStats"; "svc.ConsumerStats"; "svc.BothStats"; "svc.Plain"].

Definition member (n : string) (ns : list string) : bool :=
  existsb (String.eqb n) ns.

Definition class_in (ns : list string) (w : pyval) : bool :=
  match w with
  | PInst (Registered c) _ _ => member c ns
  | _ => false
  end.

(** Package [pkg.a] registers [pkg.a.x] and [pkg.a.y], package [pkg.b]
    registers [pkg.b.z]; no other package loads.  The registry state is the
    list of registered components. *)
#[export] Instance toy : Insights := {|
  dr := list string;
  load_components p _ r :=
    if String.eqb p "pkg.a" then Some (r ++ ["pkg.a.x"; "pkg.a.y"])
    else if String.eqb p "pkg.b" then Some (r ++ ["pkg.b.z"])
    else None;
  apply_default_enabled _ r := r;
  apply_configs _ r := r;
  get_component _ n :=
    if String.eqb n "insights_messaging.downloaders.localfs.LocalFS"
    then Some LocalFS
    else if String.eqb n "insights_messaging.engine.Engine" then Some Engine
    else if member n importable then Some (Registered n) else None;
  get_name c := c;
  get_dependency_graph _ c :=
    if String.eqb c "pkg.a.x"
    then {[ "pkg.a.x" := {[ "dep.one" ]}; "dep.one" := ∅ ]}
    else if String.eqb c "pkg.a.y"
    then {[ "pkg.a.y" := {[ "dep.one"; "dep.two" ]};
            "dep.one" := ∅; "dep.two" := ∅ ]}
    else {[ c := {[ "dep.three" ]}; "dep.three" := ∅ ]};
  DELEGATES r := r;
  isinstance w k :=
    match k with
    | EngineWatcher => class_in ["svc.EngineStats"; "svc.BothStats"] w
    | ConsumerWatcher => class_in ["svc.ConsumerStats"; "svc.BothStats"] w
    end
|}.

Definition at_registry (r : list string) (evs : list event) : world :=
  @Build_world toy r evs.

Definition w0 : world := at_registry [] [].

Definition builder (pkgs : list string) (s : Service) : AppBuilder :=
  __init__ (Some {| m_plugins := Some {| packages := Some pkgs;
                                         default_component_enabled := None |};
                    m_configs := None;
                    m_service := Some s |}).

Definition targets (tc : list string) : Service :=
  {| consumer := None; publisher := None; downloader := None; format := None;
     target_components := Some tc; watchers := None |}.

Definition watching (ws : list string) : Service :=
  {| consumer := None; publisher := None; downloader := None; format := None;
     target_components := None; watchers := Some (map spec_of ws) |}.

(** The registry once [pkg.a] and [pkg.b] are loaded and configured. *)
Definition loaded_ab : world :=
  snd (configure (builder ["pkg.a"; "pkg.b"] (targets ["pkg.a"])) w0).


Definition consumer_spec : ComponentSpec :=
  {| name := "svc.Consumer";
     args := Some [PInt 1; PStr "x"];
     kwargs := Some [("verbose", PBool true)] |}.

Definition with_consumer (spec : ComponentSpec) : Service :=
  {| consumer := Some spec; publisher := None; downloader := None;
     format := None; target_components := None; watchers := None |}.

Definition four_watchers : AppBuilder :=
  builder [] (watching ["svc.EngineStats"; "svc.ConsumerStats";
                        "svc.BothStats"; "svc.Plain"]).

Definition toy_engine : pyval :=
  PInst Engine [PNone; PClass HumanReadableFormat] [].

Definition toy_consumer : pyval :=
  PInst Interactive [PInst StdOut [] []; PClass LocalFS; toy_engine] [].

(** The [watch] calls of a log, as (watcher, target) pairs. *)
Definition attachments (evs : list event) : list (pyval * pyval) :=
  flat_map (fun e => match e with EvWatch x t => [(x, t)] | _ => [] end) evs.

Definition missing_watcher : AppBuilder := builder [] (watching ["svc.Missing"]).

(** The same registry with other dependency graphs. *)
Definition with_graphs (g : string -> gmap string (gset string)) : Insights := {|
  dr := list string;
  load_components := @load_components toy;
  apply_default_enabled := @apply_default_enabled toy;
  apply_configs := @apply_configs toy;
  get_component := @get_component toy;
  get_name := @get_name toy;
  get_dependency_graph _ c := g c;
  DELEGATES := @DELEGATES toy;
  isinstance := @isinstance toy
|}.

(** Components without dependencies of their own. *)
Definition bare : Insights := with_graphs (fun _ => ∅).

(** Every component has an entry for the key [shared], naming itself. *)
Definition overlapping : Insights :=
  with_graphs (fun c => {[ "shared" := {[ c ]} ]}).

Definition with_publisher (n : string) : Service :=
  {| consumer := None; publisher := Some (spec_of n); downloader := None;
     format := None; target_components := None; watchers := None |}.

(** What a build returned ([None] when it raised). *)
Definition returned (o : result pyval) : pyval :=
  match o with
  | Ok v => v
  | Raise _ => PNone
  end.

(** A manifest with plugins and overrides but no [service] section. *)
Definition no_service_manifest : Manifest :=
  {| m_plugins := Some {| packages := Some ["pkg.a"];
                          default_component_enabled := Some false |};
     m_configs := Some [ {| cfg_name := "pkg.a.x"; cfg_enabled := Some true |} ];
     m_service := None |}.


(** A watcher with both capabilities, followed by one that does not resolve. *)
Definition half_watched : AppBuilder :=
  builder [] (watching ["svc.BothStats"; "svc.Missing"]).

(** A watcher spec naming the class of the default downloader. *)
Definition localfs_watcher : AppBuilder :=
  builder [] (watching ["insights_messaging.downloaders.localfs.LocalFS"]).

End Toy.

(** ** Properties *)

Section Properties.
Context `{I : Insights}.

Lemma logged_nil w : logged w [] = w.
Proof. destruct w; unfold logged; simpl. by rewrite app_nil_r. Qed.

Lemma logged_logged w evs1 evs2 :
  logged (logged w evs1) evs2 = logged w (evs1 ++ evs2).
Proof. unfold logged; simpl. by rewrite app_assoc. Qed.

Lemma bind_assoc {A B C} (m : M A) (f : A -> M B) (g : B -> M C) w :
  bind (bind m f) g w = bind m (fun x => bind (f x) g) w.
Proof. unfold bind. destruct (m w) as [[a|e] w1]; reflexivity. Qed.

Lemma bind_ok {A B} (m : M A) (k : A -> M B) w a w1 :
  m w = (Ok a, w1) -> bind m k w = k a w1.
Proof. intros H. unfold bind. by rewrite H. Qed.

Lemma bind_raise {A B} (m : M A) (k : A -> M B) w e w1 :
  m w = (Raise e, w1) -> bind m k w = (Raise e, w1).
Proof. intros H. unfold bind. by rewrite H. Qed.

Lemma build_app_split self w :
  build_app self w = bind (configure self) (fun _ => assemble self) w.
Proof.
  unfold build_app, configure. rewrite !bind_assoc. reflexivity.
Qed.

(** *** Plugin loading *)

Lemma _load_packages_cons p pkgs w :
  _load_packages (p :: pkgs) w =
  match load_components p false (registry w) with
  | Some r => _load_packages pkgs
                {| registry := r; log := log w ++ [EvLoadComponents p false] |}
  | None => (Raise (LoadFailure p), logged w [EvLoadComponents p false])
  end.
Proof.
  simpl. unfold bind, dr_load_components, emit, bind; simpl.
  destruct (load_components p false (registry w)); reflexivity.
Qed.

(** A successful load logs one call per package, each with
    [continue_on_error=False]. *)
Lemma _load_packages_ok_log pkgs : forall w w1,
  _load_packages pkgs w = (Ok tt, w1) ->
  log w1 = log w ++ load_events pkgs.
Proof.
  induction pkgs as [|p pkgs IH]; intros w w1 H.
  - inversion H; subst. by rewrite app_nil_r.
  - rewrite _load_packages_cons in H.
    destruct (load_components p false (registry w)) as [r|]; [|discriminate].
    apply IH in H. rewrite H. simpl. by rewrite <- app_assoc.
Qed.

Lemma _load_packages_app pre post w :
  _load_packages (pre ++ post) w =
  bind (_load_packages pre) (fun _ => _load_packages post) w.
Proof.
  revert w. induction pre as [|p pre IH]; intros w.
  - reflexivity.
  - change ((p :: pre) ++ post) with (p :: (pre ++ post)).
    rewrite _load_packages_cons. unfold bind at 1.
    rewrite _load_packages_cons.
    destruct (load_components p false (registry w)) as [r|]; [|reflexivity].
    rewrite IH. reflexivity.
Qed.

(** A load that fails at [p] after [pre] loaded. *)
Lemma _load_packages_fails pre p post w w1 :
  _load_packages pre w = (Ok tt, w1) ->
  load_components p false (registry w1) = None ->
  _load_packages (pre ++ p :: post) w =
  (Raise (LoadFailure p), logged w1 [EvLoadComponents p false]).
Proof.
  intros Hpre Hp. rewrite _load_packages_app.
  rewrite (bind_ok _ _ _ _ _ Hpre), _load_packages_cons, Hp. reflexivity.
Qed.

(** C4.  If a package listed under [plugins.packages] fails to load (the
    packages before it having loaded), [build_app] raises at once: the only
    calls made are the [load_components] calls up to and including the
    failing one, each with [continue_on_error=False].  In particular no
    publisher, downloader, engine or consumer is constructed. *)
Theorem load_failure_aborts_build self w pre p post w1 :
  packages (plugins self) = Some (pre ++ p :: post) ->
  _load_packages pre w = (Ok tt, w1) ->
  load_components p false (registry w1) = None ->
  exists w',
    build_app self w = (Raise (LoadFailure p), w') /\
    log w' = log w ++ load_events (pre ++ [p]) /\
    (forall q b, In (EvLoadComponents q b) (load_events (pre ++ [p])) -> b = false) /\
    (forall f a k, ~ In (EvCall f a k) (load_events (pre ++ [p]))).
Proof.
  intros Hpk Hpre Hp.
  exists (logged w1 [EvLoadComponents p false]).
  split; [|split; [|split]].
  - rewrite build_app_split. apply bind_raise.
    unfold configure. apply bind_raise.
    unfold _load_plugins. rewrite Hpk. simpl.
    by apply _load_packages_fails.
  - simpl. rewrite (_load_packages_ok_log _ _ _ Hpre).
    unfold load_events. rewrite map_app, <- app_assoc. reflexivity.
  - intros q b Hin. unfold load_events in Hin.
    apply in_map_iff in Hin as (x & Hx & _). by inversion Hx.
  - intros f a k Hin. unfold load_events in Hin.
    apply in_map_iff in Hin as (x & Hx & _). discriminate.
Qed.

(** *** Configuration *)

Lemma configure_run self w w1 :
  _load_plugins self w = (Ok tt, w1) ->
  configure self w =
  (Ok tt,
   {| registry := apply_configs (plugins self)
                    (apply_default_enabled (plugins self) (registry w1));
      log := log w1 ++ [EvApplyDefaultEnabled (plugins self);
                        EvApplyConfigs (plugins self)] |}).
Proof.
  intros H. unfold configure. rewrite (bind_ok _ _ _ _ _ H).
  unfold bind, insights_apply_default_enabled, insights_apply_configs,
    bind, emit; simpl.
  by rewrite <- app_assoc.
Qed.

Lemma configure_inv self w w2 :
  configure self w = (Ok tt, w2) ->
  exists w1, _load_plugins self w = (Ok tt, w1) /\
    registry w2 = apply_configs (plugins self)
                    (apply_default_enabled (plugins self) (registry w1)) /\
    log w2 = log w ++ load_events (default [] (packages (plugins self)))
                   ++ [EvApplyDefaultEnabled (plugins self);
                       EvApplyConfigs (plugins self)].
Proof.
  intros H.
  destruct (_load_plugins self w) as [[[]|e] w1] eqn:Hl.
  - rewrite (configure_run _ _ _ Hl) in H. inversion H; subst; simpl.
    exists w1. split; [done|]. split; [done|].
    unfold _load_plugins in Hl.
    rewrite (_load_packages_ok_log _ _ _ Hl). by rewrite <- app_assoc.
  - unfold configure in H. rewrite (bind_raise _ _ _ _ _ Hl) in H. discriminate.
Qed.

(** C1.  What [build_app] hands to [apply_configs] is [self.plugins], the
    same mapping it hands to [apply_default_enabled]; [self.configs] is set
    by [__init__] and read nowhere.  On [manifest_with_override] the
    override list is stored in the builder, the single [apply_configs] call
    receives the [plugins] section, and replacing the [configs] attribute
    by anything else changes neither the result nor the calls made. *)
Theorem apply_configs_receives_plugins (r : dr) :
  let self := __init__ (Some manifest_with_override) in
  let p := {| packages := Some []; default_component_enabled := Some true |} in
  let engine := PInst Engine [PNone; PClass HumanReadableFormat] [] in
  let args := [PInst StdOut [] []; PClass LocalFS; engine] in
  configs self = [ {| cfg_name := "examples.rules.bash_version.report";
                      cfg_enabled := Some false |} ] /\
  build_app self {| registry := r; log := [] |} =
    (Ok (PInst Interactive args []),
     {| registry := apply_configs p (apply_default_enabled p r);
        log := [EvApplyDefaultEnabled p; EvApplyConfigs p;
                EvCall StdOut [] [];
                EvCall Engine [PNone; PClass HumanReadableFormat] [];
                EvCall Interactive args []] |}) /\
  (forall cs w, build_app (with_configs self cs) w = build_app self w).
Proof.
  repeat split.
Qed.

(** The same for every builder: the [configs] attribute does not reach
    [build_app]. *)
Lemma build_app_ignores_configs self cs w :
  build_app (with_configs self cs) w = build_app self w.
Proof. reflexivity. Qed.

(** *** Target closure *)

(** [String.prefix] is the raw prefix test on characters. *)
Lemma prefix_iff p : forall s,
  String.prefix p s = true <-> exists rest, s = (p ++ rest)%string.
Proof.
  induction p as [|a p IH]; intros s.
  - destruct s; (split; [intros _; eexists; reflexivity | reflexivity]).
  - destruct s as [|b s]; cbn.
    + split; [discriminate | intros [rest Hr]; discriminate].
    + destruct (Ascii.ascii_dec a b) as [->|Hne].
      * rewrite IH. split; intros [rest Hr]; exists rest.
        -- by rewrite Hr.
        -- by inversion Hr.
      * split; [discriminate | intros [rest Hr]; inversion Hr; congruence].
Qed.

Lemma startswith_iff s tc :
  startswith s tc = true <-> exists p rest, In p tc /\ s = (p ++ rest)%string.
Proof.
  unfold startswith. rewrite existsb_exists. split.
  - intros (p & Hin & Hp). apply prefix_iff in Hp as [rest Hr]. eauto.
  - intros (p & rest & Hin & Hs). exists p. split; [done|].
    apply prefix_iff. eauto.
Qed.

Lemma target_loop_foldl r tc cs : forall acc,
  target_loop r tc cs acc =
  foldl (fun acc c => update acc (get_dependency_graph r c)) acc
        (List.filter (fun c => startswith (get_name c) tc) cs).
Proof.
  induction cs as [|c cs IH]; intros acc; simpl; [done|].
  rewrite IH. by destruct (startswith (get_name c) tc).
Qed.

Lemma foldl_update_Some r cs k v : forall acc : gmap string (gset string),
  foldl (fun acc c => update acc (get_dependency_graph r c)) acc cs !! k = Some v ->
  acc !! k = Some v \/
  exists c, In c cs /\ get_dependency_graph r c !! k = Some v.
Proof.
  induction cs as [|c cs IH]; intros acc H; simpl in *; [by left|].
  apply IH in H as [H|(c' & Hin & Hc')].
  - unfold update in H. apply lookup_union_Some_raw in H as [H|[_ H]].
    + right. exists c. by split; [left|].
    + by left.
  - right. exists c'. by split; [right|].
Qed.

Lemma foldl_update_is_Some r cs k : forall acc : gmap string (gset string),
  is_Some (acc !! k) \/
  (exists c, In c cs /\ is_Some (get_dependency_graph r c !! k)) ->
  is_Some (foldl (fun acc c => update acc (get_dependency_graph r c)) acc cs !! k).
Proof.
  induction cs as [|c cs IH]; intros acc H; simpl in *.
  - destruct H as [H|(c & [] & _)]. done.
  - apply IH. destruct H as [H|(c' & [->|Hin] & Hc')].
    + left. unfold update. apply lookup_union_is_Some. by right.
    + left. unfold update. apply lookup_union_is_Some. by left.
    + right. eauto.
Qed.

Lemma selected_iff r tc c :
  In c (selected r tc) <->
  In c (DELEGATES r) /\
  exists p rest, In p tc /\ get_name c = (p ++ rest)%string.
Proof.
  unfold selected. rewrite filter_In, startswith_iff. reflexivity.
Qed.

Lemma _get_target_components_run self w tc :
  target_components (service self) = Some tc -> tc <> [] ->
  _get_target_components self w =
  (Ok (or_None (merge_subgraphs (registry w) (selected (registry w) tc))), w).
Proof.
  intros Htc Hne. unfold _get_target_components. rewrite Htc. simpl.
  destruct tc as [|p tc]; [done|].
  rewrite target_loop_foldl. reflexivity.
Qed.

(** C3.  With a non-empty [service.target_components], the closure computed
    by [_get_target_components] is the merge of the dependency subgraphs of
    the selected components, and nothing else: a registered component is
    selected exactly when its name is one of the target prefixes followed
    by any characters at all; every entry of the closure comes from the
    subgraph of a selected component, and every key of such a subgraph is
    in the closure.  (The value returned is [graph or None]: the merge when
    it has an entry.) *)
Theorem target_closure_is_merge_of_selected self w tc :
  target_components (service self) = Some tc -> tc <> [] ->
  let r := registry w in
  let closure := merge_subgraphs r (selected r tc) in
  _get_target_components self w = (Ok (or_None closure), w) /\
  (closure <> ∅ -> _get_target_components self w = (Ok (Some closure), w)) /\
  (forall c, In c (selected r tc) <->
             In c (DELEGATES r) /\
             exists p rest, In p tc /\ get_name c = (p ++ rest)%string) /\
  (forall k v, closure !! k = Some v ->
     exists c, In c (selected r tc) /\ get_dependency_graph r c !! k = Some v) /\
  (forall c k, In c (selected r tc) ->
     is_Some (get_dependency_graph r c !! k) -> is_Some (closure !! k)).
Proof.
  intros Htc Hne r closure.
  pose proof (_get_target_components_run self w tc Htc Hne) as Hrun.
  fold r in Hrun. fold closure in Hrun.
  split; [done|]. split; [|split; [|split]].
  - intros Hc. rewrite Hrun. unfold or_None. by destruct (decide (closure = ∅)).
  - intros c. apply selected_iff.
  - intros k v Hk. unfold closure, merge_subgraphs in Hk.
    apply foldl_update_Some in Hk as [Hk|Hk]; [|done].
    by rewrite lookup_empty in Hk.
  - intros c k Hin Hk. unfold closure, merge_subgraphs.
    apply foldl_update_is_Some. right. eauto.
Qed.

Lemma selected_nil r tc :
  (forall c, In c (DELEGATES r) -> startswith (get_name c) tc = false) ->
  selected r tc = [].
Proof.
  unfold selected. induction (DELEGATES r) as [|c cs IH]; intros H; simpl; [done|].
  rewrite (H c) by (by left). apply IH. intros c' Hc'. apply H. by right.
Qed.

(** C2.  When [service.target_components] is non-empty and no registered
    component's name starts with any of its prefixes, the closure computed
    after configuration is [None] ("no restriction"), not an empty mapping,
    and [build_app] behaves exactly as on the same builder with
    [target_components] absent: same result, same calls, same arguments. *)
Theorem unmatched_targets_mean_no_restriction self w w2 tc :
  target_components (service self) = Some tc -> tc <> [] ->
  configure self w = (Ok tt, w2) ->
  (forall c, In c (DELEGATES (registry w2)) -> startswith (get_name c) tc = false) ->
  _get_target_components self w2 = (Ok None, w2) /\
  build_app self w = build_app (without_targets self) w.
Proof.
  intros Htc Hne Hcfg Hno.
  assert (Hnone : _get_target_components self w2 = (Ok None, w2)).
  { rewrite (_get_target_components_run self w2 tc Htc Hne).
    by rewrite (selected_nil _ _ Hno). }
  split; [done|].
  rewrite !build_app_split.
  change (configure (without_targets self)) with (configure self).
  rewrite !(bind_ok _ _ _ _ _ Hcfg).
  unfold assemble. rewrite (bind_ok _ _ _ _ _ Hnone). reflexivity.
Qed.

(** *** Resolving specs and attaching watchers *)

Lemma _load_run spec w :
  _load spec w =
  match get_component (registry w) (name spec) with
  | Some c => (Ok (instance_of c [] spec),
               logged w [EvGetComponent (name spec); construction_of c [] spec])
  | None => (Raise (Exception (couldnt_find (name spec))),
             logged w [EvGetComponent (name spec)])
  end.
Proof.
  unfold _load, bind, dr_get_component, bind, emit, call, bind, emit, ret, raise.
  simpl. destruct (get_component (registry w) (name spec)); simpl; [|done].
  unfold logged; simpl. by rewrite <- app_assoc.
Qed.

Lemma comprehension_load_run specs : forall w,
  comprehension _load specs w =
  (load_all_result (registry w) specs,
   logged w (load_all_events (registry w) specs)).
Proof.
  induction specs as [|spec specs IH]; intros w; simpl.
  - by rewrite logged_nil.
  - unfold bind at 1. rewrite _load_run.
    destruct (get_component (registry w) (name spec)) as [c|]; [|done].
    unfold bind at 1. rewrite IH. simpl.
    destruct (load_all_result (registry w) specs); simpl;
      unfold ret; rewrite logged_logged; reflexivity.
Qed.

Lemma load_all_result_unresolved r specs n :
  first_unresolved r (map name specs) = Some n ->
  load_all_result r specs = Raise (Exception (couldnt_find n)).
Proof.
  unfold first_unresolved.
  induction specs as [|spec specs IH]; simpl; [done|].
  destruct (get_component r (name spec)); [|by intros [= ->]].
  intros H. by rewrite (IH H).
Qed.

Lemma load_all_result_resolved r specs :
  first_unresolved r (map name specs) = None ->
  exists vs, load_all_result r specs = Ok vs.
Proof.
  unfold first_unresolved.
  induction specs as [|spec specs IH]; simpl; [eauto|].
  destruct (get_component r (name spec)); [|done].
  intros H. destruct (IH H) as [vs ->]. eauto.
Qed.

Lemma attach_run engine consumer x w :
  attach engine consumer x w = (Ok tt, logged w (watch_events engine consumer x)).
Proof.
  unfold attach, watch_events, bind, when, watch, emit, ret.
  destruct (isinstance x EngineWatcher), (isinstance x ConsumerWatcher);
    unfold logged; simpl; rewrite <- ?app_assoc, ?app_nil_r; try reflexivity.
  by destruct w.
Qed.

Lemma for_each_attach_run engine consumer ws : forall w,
  for_each ws (attach engine consumer) w =
  (Ok tt, logged w (flat_map (watch_events engine consumer) ws)).
Proof.
  induction ws as [|x ws IH]; intros w; simpl.
  - by rewrite logged_nil.
  - unfold bind. rewrite attach_run, IH, logged_logged. reflexivity.
Qed.


Lemma first_unresolved_Some r names n :
  first_unresolved r names = Some n ->
  In n names /\ get_component r n = None.
Proof.
  intros H. apply find_some in H as [Hin Hn]. split; [done|].
  by destruct (get_component r n).
Qed.


(** *** The assembly as a function of the registry *)

Lemma runs_bind {A B} (m : M A) (k : A -> M B) o ok :
  runs m o -> (forall a, runs (k a) (ok a)) ->
  runs (bind m k) (fun r => seq (o r) (fun a => ok a r)).
Proof.
  intros Hm Hk w. unfold bind, seq. rewrite Hm.
  destruct (o (registry w)) as [[a|e] evs]; simpl; [|done].
  rewrite Hk. simpl.
  destruct (ok a (registry w)) as [res evs']; simpl.
  by rewrite logged_logged.
Qed.

Lemma runs_ret {A} (a : A) : runs (ret a) (fun _ => (Ok a, [])).
Proof. intros w. simpl. by rewrite logged_nil. Qed.

Lemma runs_call f a k :
  runs (call f a k) (fun _ => (Ok (PInst f a k), [EvCall f a k])).
Proof. intros w. reflexivity. Qed.

Lemma _get_target_components_closure self w :
  _get_target_components self w = (Ok (closure_of self (registry w)), w).
Proof.
  unfold _get_target_components, closure_of.
  by destruct (default [] (target_components (service self))).
Qed.

Lemma runs_resolve spec pre :
  runs (bind (dr_get_component (name spec)) (fun comp =>
          match comp with
          | None => raise (Exception (couldnt_find (name spec)))
          | Some comp =>
              call comp (pre ++ default [] (args spec))
                   (default [] (kwargs spec))
          end))
       (fun r => resolve r spec pre).
Proof.
  intros w. unfold resolve, bind, dr_get_component, bind, emit, call, bind,
    emit, ret, raise. simpl.
  destruct (get_component (registry w) (name spec)); simpl; [|done].
  unfold logged; simpl. by rewrite <- app_assoc.
Qed.

Lemma runs_get_publisher self : runs (_get_publisher self) (publisher_outcome self).
Proof.
  unfold _get_publisher, publisher_outcome.
  destruct (publisher (service self)) as [spec|].
  - apply (runs_resolve spec []).
  - apply runs_call.
Qed.

Lemma runs_get_downloader self :
  runs (_get_downloader self) (downloader_outcome self).
Proof.
  unfold _get_downloader, downloader_outcome.
  destruct (downloader (service self)) as [spec|].
  - apply (runs_resolve spec []).
  - apply runs_ret.
Qed.

Lemma runs_get_format self : runs (_get_format self) (format_outcome self).
Proof.
  unfold _get_format, format_outcome.
  destruct (format (service self)) as [n|]; [|apply runs_ret].
  intros w. unfold bind, dr_get_component, bind, emit, ret, raise. simpl.
  by destruct (get_component (registry w) n).
Qed.

Lemma runs_get_consumer self publisher downloader engine :
  runs (_get_consumer self publisher downloader engine)
       (fun r => consumer_outcome self r publisher downloader engine).
Proof.
  unfold _get_consumer, consumer_outcome.
  destruct (consumer (service self)) as [spec|].
  - apply (runs_resolve spec [publisher; downloader; engine]).
  - apply runs_call.
Qed.

Lemma runs_get_watchers self : runs (_get_watchers self) (watchers_outcome self).
Proof.
  unfold _get_watchers, watchers_outcome. intros w.
  destruct (watchers (service self)) as [specs|]; simpl.
  - apply comprehension_load_run.
  - by rewrite logged_nil.
Qed.

Lemma runs_attach_all engine consumer ws :
  runs (for_each ws (attach engine consumer))
       (fun _ => (Ok tt, flat_map (watch_events engine consumer) ws)).
Proof. intros w. apply for_each_attach_run. Qed.

Lemma runs_get_target_components self :
  runs (_get_target_components self) (fun r => (Ok (closure_of self r), [])).
Proof.
  intros w. rewrite _get_target_components_closure. simpl.
  by rewrite logged_nil.
Qed.

Lemma runs_assemble self : runs (assemble self) (assemble_outcome self).
Proof.
  unfold assemble, assemble_outcome.
  refine (runs_bind _ _ _ _ (runs_get_target_components self) _); intros tc.
  refine (runs_bind _ _ _ _ (runs_get_publisher self) _); intros pub.
  refine (runs_bind _ _ _ _ (runs_get_downloader self) _); intros dl.
  refine (runs_bind _ _ _ _ (runs_get_format self) _); intros fmt.
  refine (runs_bind _ _ _ _ (runs_call _ _ _) _); intros engine.
  refine (runs_bind _ _ _ _ (runs_get_consumer self pub dl engine) _); intros con.
  refine (runs_bind _ _ _ _ (runs_get_watchers self) _); intros ws.
  refine (runs_bind _ _ _ _ (runs_attach_all engine con ws) _); intros _.
  apply runs_ret.
Qed.

Lemma build_app_run self w w2 :
  configure self w = (Ok tt, w2) ->
  build_app self w =
  (fst (assemble_outcome self (registry w2)),
   logged w2 (snd (assemble_outcome self (registry w2)))).
Proof.
  intros H. rewrite build_app_split, (bind_ok _ _ _ _ _ H).
  apply runs_assemble.
Qed.

Lemma build_app_ok_configured self w v w' :
  build_app self w = (Ok v, w') ->
  exists w2, configure self w = (Ok tt, w2).
Proof.
  rewrite build_app_split. unfold bind.
  destruct (configure self w) as [[[]|e] w2]; [eauto|discriminate].
Qed.

(** *** Unresolved names *)

Lemma resolve_found r spec pre c :
  get_component r (name spec) = Some c ->
  resolve r spec pre =
  (Ok (instance_of c pre spec),
   [EvGetComponent (name spec); construction_of c pre spec]).
Proof. intros H. unfold resolve. by rewrite H. Qed.

Lemma first_unresolved_app r xs ys :
  first_unresolved r (xs ++ ys) =
  match first_unresolved r xs with
  | Some n => Some n
  | None => first_unresolved r ys
  end.
Proof.
  unfold first_unresolved. induction xs as [|x xs IH]; simpl; [done|].
  by destruct (get_component r x).
Qed.

(** A slot either resolves or reports its own name. *)
Lemma resolve_cases r spec pre :
  match first_unresolved r [name spec] with
  | Some n => fst (resolve r spec pre) = Raise (Exception (couldnt_find n))
  | None => exists v, fst (resolve r spec pre) = Ok v
  end.
Proof.
  unfold first_unresolved, resolve; simpl.
  destruct (get_component r (name spec)); simpl; eauto.
Qed.

Lemma publisher_cases self r :
  match first_unresolved r (spec_names (publisher (service self))) with
  | Some n => fst (publisher_outcome self r) = Raise (Exception (couldnt_find n))
  | None => exists v, fst (publisher_outcome self r) = Ok v
  end.
Proof.
  unfold publisher_outcome.
  destruct (publisher (service self)) as [spec|]; simpl.
  - apply resolve_cases.
  - eauto.
Qed.

Lemma downloader_cases self r :
  match first_unresolved r (spec_names (downloader (service self))) with
  | Some n => fst (downloader_outcome self r) = Raise (Exception (couldnt_find n))
  | None => exists v, fst (downloader_outcome self r) = Ok v
  end.
Proof.
  unfold downloader_outcome.
  destruct (downloader (service self)) as [spec|]; simpl.
  - apply resolve_cases.
  - eauto.
Qed.

Lemma format_cases self r :
  match first_unresolved r
          match format (service self) with Some n => [n] | None => [] end with
  | Some n => fst (format_outcome self r) = Raise (Exception (couldnt_find n))
  | None => exists v, fst (format_outcome self r) = Ok v
  end.
Proof.
  unfold format_outcome, first_unresolved.
  destruct (format (service self)) as [n|]; simpl; [|eauto].
  destruct (get_component r n); simpl; eauto.
Qed.

Lemma consumer_cases self r pub dl eng :
  match first_unresolved r (spec_names (consumer (service self))) with
  | Some n => fst (consumer_outcome self r pub dl eng)
              = Raise (Exception (couldnt_find n))
  | None => exists v, fst (consumer_outcome self r pub dl eng) = Ok v
  end.
Proof.
  unfold consumer_outcome.
  destruct (consumer (service self)) as [spec|]; simpl.
  - apply resolve_cases.
  - eauto.
Qed.

Lemma watchers_cases self r :
  match first_unresolved r (watcher_names self) with
  | Some n => fst (watchers_outcome self r) = Raise (Exception (couldnt_find n))
  | None => exists v, fst (watchers_outcome self r) = Ok v
  end.
Proof.
  unfold watchers_outcome, watcher_names; simpl.
  destruct (first_unresolved _ _) eqn:H.
  - by apply load_all_result_unresolved.
  - by apply load_all_result_resolved.
Qed.

(** Running one more step [o] whose names are [names]. *)
Lemma seq_cases {A B} r (o : outcome A) (k : A -> outcome B) names rest n :
  match first_unresolved r names with
  | Some n => fst o = Raise (Exception (couldnt_find n))
  | None => exists v, fst o = Ok v
  end ->
  (forall a, first_unresolved r rest = Some n ->
             fst (k a) = Raise (Exception (couldnt_find n))) ->
  first_unresolved r (names ++ rest) = Some n ->
  fst (seq o k) = Raise (Exception (couldnt_find n)).
Proof.
  intros Ho Hk. rewrite first_unresolved_app.
  destruct o as [res evs].
  destruct (first_unresolved r names) as [n'|]; simpl in Ho.
  - intros [= ->]. by subst res.
  - destruct Ho as [v ->]. intros H. unfold seq.
    specialize (Hk v H). by destruct (k v).
Qed.

Lemma assemble_outcome_first_unresolved self r n :
  first_unresolved r (referenced self) = Some n ->
  fst (assemble_outcome self r) = Raise (Exception (couldnt_find n)).
Proof.
  unfold referenced, slot_names, assemble_outcome. rewrite <- !app_assoc.
  apply (seq_cases r _ _ [] _ n); [simpl; eauto|]. intros tc.
  apply seq_cases; [apply publisher_cases|]. intros pub.
  apply seq_cases; [apply downloader_cases|]. intros dl.
  apply seq_cases; [apply format_cases|]. intros fmt.
  apply (seq_cases r _ _ [] _ n); [simpl; eauto|]. intros engine.
  apply seq_cases; [apply consumer_cases|]. intros con.
  rewrite <- (app_nil_r (watcher_names self)).
  apply seq_cases; [apply watchers_cases|]. intros ws. discriminate.
Qed.


(** *** What a run of the assembly looks like *)

Lemma seq_Ok_inv {A B} (o : outcome A) (k : A -> outcome B) b evs :
  seq o k = (Ok b, evs) ->
  exists a evs1 evs2,
    o = (Ok a, evs1) /\ k a = (Ok b, evs2) /\ evs = evs1 ++ evs2.
Proof.
  unfold seq. destruct o as [[a|e] evs1]; [|discriminate].
  destruct (k a) as [res evs2] eqn:Hk. intros [= -> <-]. eauto 6.
Qed.

Lemma assemble_outcome_Ok_inv self r consumer evs :
  assemble_outcome self r = (Ok consumer, evs) ->
  exists pub evp dl evd fmt evf evc ws evw,
    publisher_outcome self r = (Ok pub, evp) /\
    downloader_outcome self r = (Ok dl, evd) /\
    format_outcome self r = (Ok fmt, evf) /\
    consumer_outcome self r pub dl (engine_of self r fmt) = (Ok consumer, evc) /\
    watchers_outcome self r = (Ok ws, evw) /\
    evs = evp ++ evd ++ evf ++ [engine_call self r fmt] ++ evc ++ evw ++
          flat_map (watch_events (engine_of self r fmt) consumer) ws.
Proof.
  unfold assemble_outcome. intros H.
  apply seq_Ok_inv in H as (tc & e0 & evs0 & [= <- <-] & H & ->).
  apply seq_Ok_inv in H as (pub & evp & evs1 & Hp & H & ->).
  apply seq_Ok_inv in H as (dl & evd & evs2 & Hd & H & ->).
  apply seq_Ok_inv in H as (fmt & evf & evs3 & Hf & H & ->).
  apply seq_Ok_inv in H as (eng & eve & evs4 & [= <- <-] & H & ->).
  apply seq_Ok_inv in H as (con & evc & evs5 & Hc & H & ->).
  apply seq_Ok_inv in H as (ws & evw & evs6 & Hw & H & ->).
  apply seq_Ok_inv in H as ([] & eva & evs7 & [= <-] & [= <- <-] & ->).
  exists pub, evp, dl, evd, fmt, evf, evc, ws, evw.
  rewrite app_nil_r. simpl. done.
Qed.

(** The run that gets as far as the watchers and fails there. *)
Lemma assemble_outcome_watchers_raise self r pub evp dl evd fmt evf con evc e evw :
  publisher_outcome self r = (Ok pub, evp) ->
  downloader_outcome self r = (Ok dl, evd) ->
  format_outcome self r = (Ok fmt, evf) ->
  consumer_outcome self r pub dl (engine_of self r fmt) = (Ok con, evc) ->
  watchers_outcome self r = (Raise e, evw) ->
  assemble_outcome self r =
  (Raise e, (evp ++ evd ++ evf ++ [engine_call self r fmt] ++ evc) ++ evw).
Proof.
  intros Hp Hd Hf Hc Hw. unfold assemble_outcome.
  rewrite Hp, Hd, Hf. cbn [seq]. fold (engine_of self r fmt).
  rewrite Hc. cbn [seq]. rewrite Hw. cbn [seq].
  fold (engine_call self r fmt). simpl. by rewrite <- !app_assoc.
Qed.

Lemma quiet_load_events pkgs : Forall quiet (load_events pkgs).
Proof. unfold load_events. apply Forall_map, Forall_forall. by intros. Qed.

Lemma quiet_resolve r spec pre : Forall quiet (snd (resolve r spec pre)).
Proof.
  unfold resolve. destruct (get_component r (name spec)); simpl;
    repeat constructor.
Qed.

Lemma quiet_publisher self r : Forall quiet (snd (publisher_outcome self r)).
Proof.
  unfold publisher_outcome. destruct (publisher (service self)).
  - apply quiet_resolve.
  - repeat constructor.
Qed.

Lemma quiet_downloader self r : Forall quiet (snd (downloader_outcome self r)).
Proof.
  unfold downloader_outcome. destruct (downloader (service self)).
  - apply quiet_resolve.
  - constructor.
Qed.

Lemma quiet_format self r : Forall quiet (snd (format_outcome self r)).
Proof.
  unfold format_outcome. destruct (format (service self)) as [n|]; [|constructor].
  destruct (get_component r n); repeat constructor.
Qed.

Lemma quiet_consumer self r pub dl eng :
  Forall quiet (snd (consumer_outcome self r pub dl eng)).
Proof.
  unfold consumer_outcome. destruct (consumer (service self)).
  - apply quiet_resolve.
  - repeat constructor.
Qed.

Lemma quiet_load_all r specs : Forall quiet (load_all_events r specs).
Proof.
  induction specs as [|spec specs IH]; simpl; [constructor|].
  destruct (get_component r (name spec)); repeat constructor. done.
Qed.

Lemma quiet_not_watch evs x t : Forall quiet evs -> ~ In (EvWatch x t) evs.
Proof. intros H Hin. rewrite List.Forall_forall in H. apply (H _ Hin). Qed.

(** The calls of a successful assembly before the watcher loop are quiet. *)
Lemma quiet_pipeline self r pub evp dl evd fmt evf con evc res evw :
  publisher_outcome self r = (Ok pub, evp) ->
  downloader_outcome self r = (Ok dl, evd) ->
  format_outcome self r = (Ok fmt, evf) ->
  consumer_outcome self r pub dl (engine_of self r fmt) = (Ok con, evc) ->
  watchers_outcome self r = (res, evw) ->
  Forall quiet (evp ++ evd ++ evf ++ [engine_call self r fmt] ++ evc ++ evw).
Proof.
  intros Hp Hd Hf Hc Hw.
  pose proof (quiet_publisher self r) as Qp. rewrite Hp in Qp.
  pose proof (quiet_downloader self r) as Qd. rewrite Hd in Qd.
  pose proof (quiet_format self r) as Qf. rewrite Hf in Qf.
  pose proof (quiet_consumer self r pub dl (engine_of self r fmt)) as Qc.
  rewrite Hc in Qc.
  pose proof (quiet_load_all r (default [] (watchers (service self)))) as Qw.
  unfold watchers_outcome in Hw. injection Hw as _ <-.
  simpl in *. rewrite !Forall_app. repeat split; try done.
  constructor; [exact Logic.I|]. by apply Forall_app.
Qed.

(** The consumer is constructed from publisher, downloader and engine, in
    that order, before anything the manifest supplies. *)
Lemma consumer_outcome_Ok self r pub dl eng con evc :
  consumer_outcome self r pub dl eng = (Ok con, evc) ->
  exists f rest kw,
    con = PInst f (pub :: dl :: eng :: rest) kw /\
    In (EvCall f (pub :: dl :: eng :: rest) kw) evc /\
    rest = match consumer (service self) with
           | Some spec => default [] (args spec)
           | None => []
           end.
Proof.
  unfold consumer_outcome, resolve.
  destruct (consumer (service self)) as [spec|].
  - destruct (get_component r (name spec)) as [c|]; [|discriminate].
    intros [= <- <-]. unfold instance_of, construction_of. simpl.
    eexists _, _, _. split; [done|]. split; [|done]. right. by left.
  - intros [= <- <-]. eexists _, _, _. split; [done|]. split; [by left|done].
Qed.

Lemma build_app_Ok_inv self w consumer w' :
  build_app self w = (Ok consumer, w') ->
  exists w2 pub evp dl evd fmt evf evc ws evw,
    configure self w = (Ok tt, w2) /\
    publisher_outcome self (registry w2) = (Ok pub, evp) /\
    downloader_outcome self (registry w2) = (Ok dl, evd) /\
    format_outcome self (registry w2) = (Ok fmt, evf) /\
    consumer_outcome self (registry w2) pub dl (engine_of self (registry w2) fmt)
      = (Ok consumer, evc) /\
    watchers_outcome self (registry w2) = (Ok ws, evw) /\
    w' = logged w2
           (evp ++ evd ++ evf ++ [engine_call self (registry w2) fmt] ++ evc ++
            evw ++
            flat_map (watch_events (engine_of self (registry w2) fmt) consumer) ws).
Proof.
  intros H. destruct (build_app_ok_configured _ _ _ _ H) as [w2 Hcfg].
  rewrite (build_app_run _ _ _ Hcfg) in H.
  destruct (assemble_outcome self (registry w2)) as [res evs] eqn:Ha.
  simpl in H. injection H as -> <-.
  apply assemble_outcome_Ok_inv in Ha
    as (pub & evp & dl & evd & fmt & evf & evc & ws & evw
        & Hp & Hd & Hf & Hc & Hw & ->).
  exists w2, pub, evp, dl, evd, fmt, evf, evc, ws, evw. done.
Qed.

(** *** Attaching the watchers *)

Lemma in_watch_events engine consumer y x t :
  In (EvWatch x t) (watch_events engine consumer y) <->
  x = y /\ ((t = engine /\ isinstance y EngineWatcher = true) \/
            (t = consumer /\ isinstance y ConsumerWatcher = true)).
Proof.
  unfold watch_events. rewrite in_app_iff.
  destruct (isinstance y EngineWatcher), (isinstance y ConsumerWatcher);
    simpl; split.
  all: try (intros [[[= -> ->]|[]]|[[= -> ->]|[]]]; split; auto; fail).
  all: try (intros [-> [[-> _]|[-> _]]]; auto; fail).
  all: try (intros [[[= -> ->]|[]]|[]]; split; auto; fail).
  all: try (intros [[]|[[= -> ->]|[]]]; split; auto; fail).
  all: try (intros [-> [[-> H]|[-> H]]]; (discriminate || auto); fail).
  all: try (intros [[]|[]]; fail).
Qed.

Lemma in_attach_events engine consumer ws x t :
  In (EvWatch x t) (flat_map (watch_events engine consumer) ws) <->
  In x ws /\ ((t = engine /\ isinstance x EngineWatcher = true) \/
              (t = consumer /\ isinstance x ConsumerWatcher = true)).
Proof.
  rewrite in_flat_map. split.
  - intros (y & Hy & Hin). apply in_watch_events in Hin as [-> H]. done.
  - intros [Hx H]. exists x. split; [done|]. by apply in_watch_events.
Qed.

Lemma load_all_result_Ok r specs : forall ws,
  load_all_result r specs = Ok ws ->
  Forall2 (fun spec x =>
             exists c, get_component r (name spec) = Some c /\
                       x = instance_of c [] spec /\
                       In (construction_of c [] spec) (load_all_events r specs))
          specs ws.
Proof.
  induction specs as [|spec specs IH]; simpl; intros ws H.
  - injection H as <-. constructor.
  - destruct (get_component r (name spec)) as [c|] eqn:Hc; [|discriminate].
    destruct (load_all_result r specs) as [vs|]; [|discriminate].
    injection H as <-. constructor.
    + exists c. repeat split; auto. right. by left.
    + eapply Forall2_impl; [apply IH; reflexivity|].
      intros s x (c' & ? & ? & ?). exists c'. repeat split; auto.
      right. by right.
Qed.

(** C8, as the code has it.  In a build that succeeds -- every watcher
    spec resolves, so the attaching loop is reached -- a constructed watcher
    is attached to the engine exactly when it is an [EngineWatcher], and to the consumer
    exactly when it is a [ConsumerWatcher]; the two tests do not depend on
    each other, and nothing else is ever attached to anything. *)
Theorem watchers_attached_by_capability self w consumer w' :
  build_app self w = (Ok consumer, w') ->
  exists w2 engine ws new,
    configure self w = (Ok tt, w2) /\
    log w' = log w ++ new /\
    constructed new engine /\
    (exists tc fmt, engine = PInst Engine [tc; PClass fmt] []) /\
    (exists f pub dl rest kw, consumer = PInst f (pub :: dl :: engine :: rest) kw) /\
    Forall2 (fun spec x =>
               exists c, get_component (registry w2) (name spec) = Some c /\
                         x = instance_of c [] spec /\
                         In (construction_of c [] spec) new)
            (default [] (watchers (service self))) ws /\
    (forall x, In x ws ->
       (In (EvWatch x engine) new <-> isinstance x EngineWatcher = true) /\
       (In (EvWatch x consumer) new <-> isinstance x ConsumerWatcher = true)) /\
    (forall x t, In (EvWatch x t) new ->
       In x ws /\ (t = engine \/ t = consumer)).
Proof.
  intros H.
  apply build_app_Ok_inv in H
    as (w2 & pub & evp & dl & evd & fmt & evf & evc & ws & evw
        & Hcfg & Hp & Hd & Hf & Hc & Hw & ->).
  set (r := registry w2) in *.
  set (engine := engine_of self r fmt) in *.
  set (pipe := evp ++ evd ++ evf ++ [engine_call self r fmt] ++ evc ++ evw).
  set (att := flat_map (watch_events engine consumer) ws).
  set (pre := load_events (default [] (packages (plugins self)))
              ++ [EvApplyDefaultEnabled (plugins self);
                  EvApplyConfigs (plugins self)]).
  assert (Hlog : log (logged w2 (evp ++ evd ++ evf ++ [engine_call self r fmt]
                                  ++ evc ++ evw ++ att))
                 = log w ++ pre ++ pipe ++ att).
  { destruct (configure_inv _ _ _ Hcfg) as (w1 & _ & _ & Hl).
    simpl. rewrite Hl. unfold pre, pipe. by rewrite <- !app_assoc. }
  assert (Qpre : Forall quiet pre).
  { unfold pre. apply Forall_app. split; [apply quiet_load_events|].
    repeat constructor. }
  assert (Qpipe : Forall quiet pipe)
    by exact (quiet_pipeline _ _ _ _ _ _ _ _ _ _ _ _ Hp Hd Hf Hc Hw).
  destruct (consumer_outcome_Ok _ _ _ _ _ _ _ Hc) as (f & rest & kw & Hcon & _ & _).
  assert (Hne : engine <> consumer).
  { rewrite Hcon. unfold engine, engine_of. intros [= _ Habs]. }
  assert (Hwatch : forall x t, In (EvWatch x t) (pre ++ pipe ++ att) <->
                               In (EvWatch x t) att).
  { intros x t. rewrite !in_app_iff. split; [|auto].
    intros [Hin|[Hin|Hin]]; [| |done].
    - by apply quiet_not_watch in Hin.
    - by apply quiet_not_watch in Hin. }
  exists w2, engine, ws, (pre ++ pipe ++ att).
  split; [done|]. split; [done|].
  split; [|split; [|split; [|split; [|split]]]].
  - exists Engine, [py_targets (closure_of self r); PClass fmt], [].
    split; [done|]. unfold pipe. rewrite !in_app_iff. right. left.
    do 3 right. left. by left.
  - by eexists _, _.
  - by exists f, pub, dl, rest, kw.
  - unfold watchers_outcome in Hw. injection Hw as Hres Hevw.
    eapply Forall2_impl; [apply (load_all_result_Ok _ _ _ Hres)|].
    intros s x (c & ? & ? & Hin). exists c. repeat split; auto.
    unfold pipe. rewrite <- Hevw, !in_app_iff. right. left. do 5 right. done.
  - intros x Hx. split; rewrite Hwatch; unfold att; rewrite in_attach_events.
    + split; [intros [_ [[_ ?]|[Habs _]]]; [done|by destruct Hne]|auto].
    + split; [intros [_ [[Habs _]|[_ ?]]]; [by destruct Hne|done]|auto].
  - intros x t Hin. apply Hwatch in Hin. unfold att in Hin.
    apply in_attach_events in Hin as [Hx [[-> _]|[-> _]]]; auto.
Qed.

(** *** Construction arguments and defaults *)

Lemma run_outcome {A} (m : M A) o w res evs :
  runs m o -> o (registry w) = (res, evs) -> m w = (res, logged w evs).
Proof. intros Hm Ho. rewrite Hm, Ho. reflexivity. Qed.

(** C6.  A spec whose name resolves to [c] is constructed as
    [c( *args, **kwargs )]: the positional arguments of the call are the
    spec's [args] (none when absent) and its keyword arguments are the
    spec's [kwargs] (none when absent) -- for [_load], hence for the
    downloader and each watcher, and for the publisher.  In the consumer
    slot the call is [c( publisher, downloader, engine, *args, **kwargs )]:
    the three pipeline objects come first, then the spec's [args]; the
    default consumer is called with exactly those three. *)
Theorem spec_arguments_are_passed_in_order self spec w c pub dl eng :
  get_component (registry w) (name spec) = Some c ->
  let a := default [] (args spec) in
  let k := default [] (kwargs spec) in
  _load spec w =
    (Ok (PInst c a k),
     logged w [EvGetComponent (name spec); EvCall c a k]) /\
  (publisher (service self) = Some spec ->
   _get_publisher self w =
     (Ok (PInst c a k),
      logged w [EvGetComponent (name spec); EvCall c a k])) /\
  (downloader (service self) = Some spec ->
   _get_downloader self w =
     (Ok (PInst c a k),
      logged w [EvGetComponent (name spec); EvCall c a k])) /\
  (watchers (service self) = Some [spec] ->
   _get_watchers self w =
     (Ok [PInst c a k],
      logged w [EvGetComponent (name spec); EvCall c a k])) /\
  (consumer (service self) = Some spec ->
   _get_consumer self pub dl eng w =
     (Ok (PInst c (pub :: dl :: eng :: a) k),
      logged w [EvGetComponent (name spec);
                EvCall c (pub :: dl :: eng :: a) k])) /\
  (consumer (service self) = None ->
   _get_consumer self pub dl eng w =
     (Ok (PInst Interactive [pub; dl; eng] []),
      logged w [EvCall Interactive [pub; dl; eng] []])).
Proof.
  intros Hc a k.
  split; [|split; [|split; [|split; [|split]]]].
  - rewrite _load_run, Hc. reflexivity.
  - intros Hs. apply (run_outcome _ _ _ _ _ (runs_get_publisher self)).
    unfold publisher_outcome. rewrite Hs. by apply resolve_found.
  - intros Hs. apply (run_outcome _ _ _ _ _ (runs_get_downloader self)).
    unfold downloader_outcome. rewrite Hs. by apply resolve_found.
  - intros Hs. apply (run_outcome _ _ _ _ _ (runs_get_watchers self)).
    unfold watchers_outcome. rewrite Hs. simpl. by rewrite Hc.
  - intros Hs. apply (run_outcome _ _ _ _ _ (runs_get_consumer self pub dl eng)).
    unfold consumer_outcome. rewrite Hs. by apply resolve_found.
  - intros Hs. apply (run_outcome _ _ _ _ _ (runs_get_consumer self pub dl eng)).
    unfold consumer_outcome. by rewrite Hs.
Qed.

Lemma publisher_outcome_default self r :
  publisher (service self) = None ->
  publisher_outcome self r = (Ok (PInst StdOut [] []), [EvCall StdOut [] []]).
Proof. intros H. unfold publisher_outcome. by rewrite H. Qed.

Lemma downloader_outcome_default self r :
  downloader (service self) = None ->
  downloader_outcome self r = (Ok (PClass LocalFS), []).
Proof. intros H. unfold downloader_outcome. by rewrite H. Qed.

Lemma format_outcome_default self r :
  format (service self) = None ->
  format_outcome self r = (Ok HumanReadableFormat, []).
Proof. intros H. unfold format_outcome. by rewrite H. Qed.

Lemma consumer_outcome_default self r pub dl eng :
  consumer (service self) = None ->
  consumer_outcome self r pub dl eng =
  (Ok (PInst Interactive [pub; dl; eng] []), [EvCall Interactive [pub; dl; eng] []]).
Proof. intros H. unfold consumer_outcome. by rewrite H. Qed.

(** *** Which classes get called *)

Lemma referenced_publisher self spec :
  publisher (service self) = Some spec -> In (name spec) (referenced self).
Proof.
  intros H. unfold referenced, slot_names. rewrite H, !in_app_iff. left. left.
  by left.
Qed.

Lemma referenced_downloader self spec :
  downloader (service self) = Some spec -> In (name spec) (referenced self).
Proof.
  intros H. unfold referenced, slot_names. rewrite H, !in_app_iff. left. right.
  left. by left.
Qed.

Lemma referenced_format self n :
  format (service self) = Some n -> In n (referenced self).
Proof.
  intros H. unfold referenced, slot_names. rewrite H, !in_app_iff. left. right.
  right. left. by left.
Qed.

Lemma referenced_consumer self spec :
  consumer (service self) = Some spec -> In (name spec) (referenced self).
Proof.
  intros H. unfold referenced, slot_names. rewrite H, !in_app_iff. left. right.
  right. right. by left.
Qed.

Lemma referenced_watcher self spec :
  In spec (default [] (watchers (service self))) ->
  In (name spec) (referenced self).
Proof.
  intros H. unfold referenced, watcher_names. rewrite in_app_iff. right.
  by apply in_map.
Qed.

Lemma spec_call_resolve self r spec pre :
  In (name spec) (referenced self) ->
  Forall (spec_call self r) (snd (resolve r spec pre)).
Proof.
  intros Hin. unfold resolve.
  destruct (get_component r (name spec)) as [c|] eqn:Hc; simpl.
  - apply Forall_cons. split; [exact Logic.I|].
    apply Forall_cons. split; [|constructor].
    right. right. by exists (name spec).
  - apply Forall_cons. split; [exact Logic.I|constructor].
Qed.

Lemma spec_call_publisher self r :
  Forall (spec_call self r) (snd (publisher_outcome self r)).
Proof.
  unfold publisher_outcome. destruct (publisher (service self)) as [spec|] eqn:H.
  - by apply spec_call_resolve, referenced_publisher.
  - apply Forall_cons. split; [by left|constructor].
Qed.

Lemma spec_call_downloader self r :
  Forall (spec_call self r) (snd (downloader_outcome self r)).
Proof.
  unfold downloader_outcome. destruct (downloader (service self)) as [spec|] eqn:H.
  - by apply spec_call_resolve, referenced_downloader.
  - constructor.
Qed.

Lemma spec_call_format self r :
  Forall (spec_call self r) (snd (format_outcome self r)).
Proof.
  unfold format_outcome. destruct (format (service self)) as [n|]; [|constructor].
  destruct (get_component r n); (apply Forall_cons; split; [exact Logic.I|constructor]).
Qed.

Lemma spec_call_consumer self r pub dl eng :
  Forall (spec_call self r) (snd (consumer_outcome self r pub dl eng)).
Proof.
  unfold consumer_outcome. destruct (consumer (service self)) as [spec|] eqn:H.
  - by apply spec_call_resolve, referenced_consumer.
  - apply Forall_cons. split; [right; by left|constructor].
Qed.

Lemma spec_call_load_all self r specs :
  (forall spec, In spec specs -> In (name spec) (referenced self)) ->
  Forall (spec_call self r) (load_all_events r specs).
Proof.
  induction specs as [|spec specs IH]; intros H; simpl; [constructor|].
  destruct (get_component r (name spec)) as [c|] eqn:Hc.
  - apply Forall_cons. split; [exact Logic.I|].
    apply Forall_cons. split.
    + right. right. exists (name spec). split; [|done]. apply H. by left.
    + apply IH. intros s' Hs'. apply H. by right.
  - apply Forall_cons. split; [exact Logic.I|constructor].
Qed.

Lemma spec_call_watchers self r :
  Forall (spec_call self r) (snd (watchers_outcome self r)).
Proof.
  unfold watchers_outcome. simpl. apply spec_call_load_all.
  intros spec. apply referenced_watcher.
Qed.

Lemma spec_call_watch_events self r engine con ws :
  Forall (spec_call self r) (flat_map (watch_events engine con) ws).
Proof.
  induction ws as [|x ws IH]; simpl; [constructor|].
  apply Forall_app. split; [|done]. unfold watch_events.
  destruct (isinstance x EngineWatcher), (isinstance x ConsumerWatcher);
    simpl; repeat (apply Forall_cons; split; [exact Logic.I|]); constructor.
Qed.

Lemma spec_call_load_events self r pkgs :
  Forall (spec_call self r) (load_events pkgs).
Proof. unfold load_events. apply Forall_map, Forall_forall. by intros. Qed.

Lemma spec_call_named self r evs f a k :
  Forall (spec_call self r) evs -> In (EvCall f a k) evs ->
  f <> StdOut -> f <> Interactive -> named_by_manifest self r f.
Proof.
  intros H Hin H1 H2. rewrite List.Forall_forall in H.
  destruct (H _ Hin) as [?|[?|?]]; done.
Qed.

(** The calls of the pipeline other than the call of [Engine] on line 122. *)
Lemma spec_call_pipeline self r pub evp dl evd fmt evf con evc res evw :
  publisher_outcome self r = (Ok pub, evp) ->
  downloader_outcome self r = (Ok dl, evd) ->
  format_outcome self r = (Ok fmt, evf) ->
  consumer_outcome self r pub dl (engine_of self r fmt) = (Ok con, evc) ->
  watchers_outcome self r = (res, evw) ->
  Forall (spec_call self r) (evp ++ evd ++ evf) /\
  Forall (spec_call self r) (evc ++ evw).
Proof.
  intros Hp Hd Hf Hc Hw.
  pose proof (spec_call_publisher self r) as Qp. rewrite Hp in Qp.
  pose proof (spec_call_downloader self r) as Qd. rewrite Hd in Qd.
  pose proof (spec_call_format self r) as Qf. rewrite Hf in Qf.
  pose proof (spec_call_consumer self r pub dl (engine_of self r fmt)) as Qc.
  rewrite Hc in Qc.
  pose proof (spec_call_watchers self r) as Qw. rewrite Hw in Qw.
  simpl in *. rewrite !Forall_app. done.
Qed.

(** A call of [LocalFS] among the calls of the pipeline is the call of a
    class that a name of the manifest resolved to. *)
Lemma LocalFS_call_is_named self r pub evp dl evd fmt evf con evc res evw a k :
  publisher_outcome self r = (Ok pub, evp) ->
  downloader_outcome self r = (Ok dl, evd) ->
  format_outcome self r = (Ok fmt, evf) ->
  consumer_outcome self r pub dl (engine_of self r fmt) = (Ok con, evc) ->
  watchers_outcome self r = (res, evw) ->
  In (EvCall LocalFS a k)
     (evp ++ evd ++ evf ++ [engine_call self r fmt] ++ evc ++ evw) ->
  named_by_manifest self r LocalFS.
Proof.
  intros Hp Hd Hf Hc Hw Hin.
  destruct (spec_call_pipeline _ _ _ _ _ _ _ _ _ _ _ _ Hp Hd Hf Hc Hw)
    as [Q1 Q2].
  assert (Hsplit :
    evp ++ evd ++ evf ++ [engine_call self r fmt] ++ evc ++ evw =
    (evp ++ evd ++ evf) ++ [engine_call self r fmt] ++ (evc ++ evw))
    by (by rewrite <- !app_assoc).
  rewrite Hsplit in Hin.
  apply in_app_or in Hin as [Hin|Hin];
    [|apply in_app_or in Hin as [[Hin|[]]|Hin]].
  - eapply spec_call_named; [exact Q1|exact Hin|discriminate|discriminate].
  - discriminate.
  - eapply spec_call_named; [exact Q2|exact Hin|discriminate|discriminate].
Qed.

(** The shape of a successful build, as seen from the caller. *)
Lemma build_app_Ok_shape self w con w' :
  build_app self w = (Ok con, w') ->
  exists new f pub dl fmt rest kw,
    let engine := PInst Engine [py_targets (closure_of self (registry w'));
                                PClass fmt] [] in
    log w' = log w ++ new /\
    con = PInst f (pub :: dl :: engine :: rest) kw /\
    In (EvCall f (pub :: dl :: engine :: rest) kw) new /\
    In (EvCall Engine [py_targets (closure_of self (registry w')); PClass fmt] [])
       new /\
    (forall a k, In (EvCall LocalFS a k) new ->
                 named_by_manifest self (registry w') LocalFS) /\
    (publisher (service self) = None ->
       pub = PInst StdOut [] [] /\ In (EvCall StdOut [] []) new) /\
    (downloader (service self) = None -> dl = PClass LocalFS) /\
    (format (service self) = None -> fmt = HumanReadableFormat) /\
    (consumer (service self) = None -> f = Interactive /\ rest = [] /\ kw = []).
Proof.
  intros H.
  apply build_app_Ok_inv in H
    as (w2 & pub & evp & dl & evd & fmt & evf & evc & ws & evw
        & Hcfg & Hp & Hd & Hf & Hc & Hw & ->).
  change (registry (logged w2 _)) with (registry w2).
  set (r := registry w2) in *.
  set (engine := engine_of self r fmt) in *.
  set (att := flat_map (watch_events engine con) ws).
  set (pre := load_events (default [] (packages (plugins self)))
              ++ [EvApplyDefaultEnabled (plugins self);
                  EvApplyConfigs (plugins self)]).
  destruct (consumer_outcome_Ok _ _ _ _ _ _ _ Hc)
    as (f & rest & kw & Hcon & Hin & Hrest).
  exists (pre ++ evp ++ evd ++ evf ++ [engine_call self r fmt] ++ evc ++ evw ++ att),
    f, pub, dl, fmt, rest, kw.
  cbv zeta. fold (engine_of self r fmt). fold engine.
  split; [|split; [done|split; [|split; [|split; [|split; [|split; [|split]]]]]]].
  - destruct (configure_inv _ _ _ Hcfg) as (w1 & _ & _ & Hl).
    simpl. rewrite Hl. unfold pre. by rewrite <- !app_assoc.
  - rewrite !in_app_iff. do 5 right. by left.
  - rewrite !in_app_iff. do 4 right. left. by left.
  - intros a k.
    assert (Hsplit :
      pre ++ evp ++ evd ++ evf ++ [engine_call self r fmt] ++ evc ++ evw ++ att =
      (pre ++ (evp ++ evd ++ evf ++ [engine_call self r fmt] ++ evc ++ evw))
        ++ att) by (by rewrite <- !app_assoc).
    rewrite Hsplit. intros HL.
    apply in_app_or in HL as [HL|Ha];
      [apply in_app_or in HL as [Hq|Hq]|].
    + unfold pre in Hq. apply in_app_or in Hq as [Hq|Hq].
      * unfold load_events in Hq. apply in_map_iff in Hq as (? & ? & _).
        discriminate.
      * destruct Hq as [|[|[]]]; discriminate.
    + exact (LocalFS_call_is_named _ _ _ _ _ _ _ _ _ _ _ _ _ _
               Hp Hd Hf Hc Hw Hq).
    + unfold att in Ha. apply in_flat_map in Ha as (y & _ & Hy).
      unfold watch_events in Hy. apply in_app_iff in Hy.
      destruct (isinstance y EngineWatcher), (isinstance y ConsumerWatcher);
        simpl in Hy; intuition discriminate.
  - intros Hn. rewrite (publisher_outcome_default _ _ Hn) in Hp.
    injection Hp as <- <-. split; [done|].
    rewrite !in_app_iff. right. left. by left.
  - intros Hn. rewrite (downloader_outcome_default _ _ Hn) in Hd.
    by injection Hd as <- <-.
  - intros Hn. rewrite (format_outcome_default _ _ Hn) in Hf.
    by injection Hf as <- <-.
  - intros Hn. rewrite (consumer_outcome_default _ _ _ _ _ Hn) in Hc.
    injection Hc as Hc _. rewrite Hcon in Hc. by injection Hc as -> -> ->.
Qed.

(** C9.  With [service.downloader] absent, [_get_downloader] answers the
    class [LocalFS] itself and calls nothing; with [service.publisher]
    absent, [_get_publisher] calls [StdOut()] and answers the instance.
    In a build that succeeds the consumer therefore receives, as its second
    argument, [LocalFS] uninstantiated (the build calls [LocalFS] only if a
    name of the manifest resolves to that class) and, as its first, the
    [StdOut] instance built with no arguments. *)
Theorem default_downloader_is_a_class_default_publisher_an_instance self w :
  (downloader (service self) = None ->
     _get_downloader self w = (Ok (PClass LocalFS), w)) /\
  (publisher (service self) = None ->
     _get_publisher self w =
     (Ok (PInst StdOut [] []), logged w [EvCall StdOut [] []])) /\
  (forall con w', build_app self w = (Ok con, w') ->
   exists new f pub dl engine rest kw,
     log w' = log w ++ new /\
     con = PInst f (pub :: dl :: engine :: rest) kw /\
     In (EvCall f (pub :: dl :: engine :: rest) kw) new /\
     (downloader (service self) = None ->
        dl = PClass LocalFS /\
        forall a k, In (EvCall LocalFS a k) new ->
                    named_by_manifest self (registry w') LocalFS) /\
     (publisher (service self) = None ->
        pub = PInst StdOut [] [] /\ In (EvCall StdOut [] []) new)).
Proof.
  split; [|split].
  - intros Hn. unfold _get_downloader. by rewrite Hn.
  - intros Hn. unfold _get_publisher. by rewrite Hn.
  - intros con w' H. apply build_app_Ok_shape in H
      as (new & f & pub & dl & fmt & rest & kw & Hlog & Hcon & Hin & _ & Hfs
          & Hp & Hd & _).
    eexists new, f, pub, dl, _, rest, kw.
    split; [done|]. split; [exact Hcon|]. split; [exact Hin|].
    split; [|done]. intros Hn. split; [by apply Hd|done].
Qed.

(** *** A failure among the watchers *)

Lemma resolve_Ok_constructed r spec pre v evs :
  resolve r spec pre = (Ok v, evs) -> constructed evs v.
Proof.
  unfold resolve. destruct (get_component r (name spec)) as [c|]; [|discriminate].
  intros [= <- <-]. eexists _, _, _. split; [reflexivity|]. right. by left.
Qed.

Lemma constructed_app_l evs1 evs2 v :
  constructed evs1 v -> constructed (evs1 ++ evs2) v.
Proof.
  intros (f & a & k & -> & Hin). exists f, a, k. split; [done|].
  apply in_app_iff. by left.
Qed.

Lemma constructed_app_r evs1 evs2 v :
  constructed evs2 v -> constructed (evs1 ++ evs2) v.
Proof.
  intros (f & a & k & -> & Hin). exists f, a, k. split; [done|].
  apply in_app_iff. by right.
Qed.

Lemma publisher_outcome_constructed self r pub evp :
  publisher_outcome self r = (Ok pub, evp) -> constructed evp pub.
Proof.
  unfold publisher_outcome. destruct (publisher (service self)).
  - apply resolve_Ok_constructed.
  - intros [= <- <-]. eexists _, _, _. split; [reflexivity|]. by left.
Qed.

Lemma load_all_events_unresolved r specs n :
  first_unresolved r (map name specs) = Some n ->
  exists init, load_all_events r specs = init ++ [EvGetComponent n].
Proof.
  unfold first_unresolved.
  induction specs as [|spec specs IH]; simpl; [done|].
  destruct (get_component r (name spec)) as [c|].
  - intros H. destruct (IH H) as [init ->].
    by exists (EvGetComponent (name spec) :: construction_of c [] spec :: init).
  - intros [= ->]. by exists [].
Qed.

(** C10, as the code has it.  Suppose the plugins load, the slots that are
    present resolve, and [n] is the first watcher name that does not.  Then
    [build_app] raises [Exception("Couldn't find n.")] -- no consumer is
    returned -- and the calls made since configuration split in two: first
    those of the pipeline, among them the construction of the publisher, of
    the engine and of the consumer (given publisher, downloader and
    engine), and of the downloader when [service.downloader] is present;
    then those of the watcher specs, ending with the lookup of [n].  When
    [service.downloader] is absent the downloader the consumer was given is
    the class [LocalFS] itself, not an instance: [_get_downloader] answers
    it without calling anything, and the build has called [LocalFS] only if
    a name of the manifest resolves to that class.  No watcher was
    attached. *)
Theorem watcher_failure_follows_pipeline_construction self w w2 n :
  configure self w = (Ok tt, w2) ->
  first_unresolved (registry w2) (slot_names self) = None ->
  first_unresolved (registry w2) (watcher_names self) = Some n ->
  exists pub dl fmt con before after,
    let engine :=
      PInst Engine [py_targets (closure_of self (registry w2)); PClass fmt] [] in
    build_app self w =
      (Raise (Exception (couldnt_find n)), logged w2 (before ++ after)) /\
    constructed before pub /\
    constructed before engine /\
    constructed before con /\
    (exists f rest kw, con = PInst f (pub :: dl :: engine :: rest) kw) /\
    match downloader (service self) with
    | Some _ => constructed before dl
    | None => dl = PClass LocalFS /\
              (forall w0, _get_downloader self w0 = (Ok (PClass LocalFS), w0)) /\
              forall a k, In (EvCall LocalFS a k) (before ++ after) ->
                          named_by_manifest self (registry w2) LocalFS
    end /\
    after = load_all_events (registry w2) (default [] (watchers (service self))) /\
    (exists init, after = init ++ [EvGetComponent n]) /\
    (forall x t, ~ In (EvWatch x t) (before ++ after)).
Proof.
  intros Hcfg Hslots Hw. set (r := registry w2) in *.
  unfold slot_names in Hslots. rewrite !first_unresolved_app in Hslots.
  pose proof (publisher_cases self r) as Cp.
  destruct (first_unresolved r (spec_names (publisher (service self))));
    [discriminate|].
  pose proof (downloader_cases self r) as Cd.
  destruct (first_unresolved r (spec_names (downloader (service self))));
    [discriminate|].
  pose proof (format_cases self r) as Cf.
  destruct (first_unresolved r
              match format (service self) with Some n0 => [n0] | None => [] end);
    [discriminate|].
  destruct Cp as [pub Cp], Cd as [dl Cd], Cf as [fmt Cf].
  pose proof (consumer_cases self r pub dl (engine_of self r fmt)) as Cc.
  destruct (first_unresolved r (spec_names (consumer (service self))));
    [discriminate|].
  destruct Cc as [con Cc].
  pose proof (watchers_cases self r) as Cw. rewrite Hw in Cw.
  destruct (publisher_outcome self r) as [? evp] eqn:Hp.
  destruct (downloader_outcome self r) as [? evd] eqn:Hd.
  destruct (format_outcome self r) as [? evf] eqn:Hf.
  destruct (consumer_outcome self r pub dl (engine_of self r fmt))
    as [? evc] eqn:Hc.
  destruct (watchers_outcome self r) as [? evw] eqn:Hwo.
  simpl in Cp, Cd, Cf, Cc, Cw. subst.
  pose proof (quiet_pipeline _ _ _ _ _ _ _ _ _ _ _ _ Hp Hd Hf Hc Hwo) as Q.
  exists pub, dl, fmt, con,
    (evp ++ evd ++ evf ++ [engine_call self r fmt] ++ evc), evw.
  cbv zeta. fold (engine_of self r fmt).
  assert (Hq : Forall quiet
                 ((evp ++ evd ++ evf ++ [engine_call self r fmt] ++ evc) ++ evw))
    by (by rewrite <- !app_assoc).
  split; [|split; [|split; [|split; [|split; [|split; [|split; [|split]]]]]]].
  - rewrite (build_app_run _ _ _ Hcfg). fold r.
    by rewrite (assemble_outcome_watchers_raise _ _ _ _ _ _ _ _ _ _ _ _
                  Hp Hd Hf Hc Hwo).
  - apply constructed_app_l. by eapply publisher_outcome_constructed.
  - exists Engine, [py_targets (closure_of self r); PClass fmt], [].
    split; [done|]. rewrite !in_app_iff. do 3 right. left. by left.
  - destruct (consumer_outcome_Ok _ _ _ _ _ _ _ Hc)
      as (f & rest & kw & -> & Hin & _).
    eexists _, _, _. split; [reflexivity|]. rewrite !in_app_iff. by do 4 right.
  - destruct (consumer_outcome_Ok _ _ _ _ _ _ _ Hc)
      as (f & rest & kw & -> & _ & _). by exists f, rest, kw.
  - pose proof Hd as Hd'. unfold downloader_outcome in Hd.
    destruct (downloader (service self)) as [spec|] eqn:Hdl.
    + apply constructed_app_r, constructed_app_l.
      by eapply resolve_Ok_constructed.
    + injection Hd as <- <-. split; [done|]. split.
      * intros w0. unfold _get_downloader. by rewrite Hdl.
      * intros a k. rewrite <- !app_assoc.
        exact (LocalFS_call_is_named _ _ _ _ _ _ _ _ _ _ _ _ _ _
                 Hp Hd' Hf Hc Hwo).
  - unfold watchers_outcome in Hwo. by injection Hwo as _ <-.
  - unfold watchers_outcome in Hwo. injection Hwo as _ <-.
    by apply load_all_events_unresolved.
  - intros x t. by apply quiet_not_watch.
Qed.

(** *** Registry lookups *)

Lemma lookups_app evs1 evs2 : lookups (evs1 ++ evs2) = lookups evs1 ++ lookups evs2.
Proof. apply flat_map_app. Qed.

Lemma tracks_seq {A B} (o : outcome A) (k : A -> outcome B) n1 n2 :
  tracks o n1 -> (forall a, tracks (k a) n2) -> tracks (seq o k) (n1 ++ n2).
Proof.
  intros [Hpre Hok] Hk. unfold tracks, seq.
  destruct o as [[a|e] evs]; simpl in *.
  - specialize (Hok a eq_refl). destruct (Hk a) as [Hkpre Hkok].
    destruct (k a) as [res evs']; simpl in *. split.
    + rewrite lookups_app, Hok. by apply prefix_app.
    + intros b ->. rewrite lookups_app, Hok. f_equal. by eapply Hkok.
  - split; [by apply prefix_app_r|done].
Qed.

Lemma tracks_silent {A} (a : A) evs : lookups evs = [] -> tracks (Ok a, evs) [].
Proof. intros H. split; simpl; by rewrite H. Qed.

Lemma tracks_resolve r spec pre : tracks (resolve r spec pre) [name spec].
Proof.
  unfold resolve. destruct (get_component r (name spec)); split; simpl; done.
Qed.

Lemma tracks_publisher self r :
  tracks (publisher_outcome self r) (spec_names (publisher (service self))).
Proof.
  unfold publisher_outcome. destruct (publisher (service self)); simpl.
  - apply tracks_resolve.
  - by apply tracks_silent.
Qed.

Lemma tracks_downloader self r :
  tracks (downloader_outcome self r) (spec_names (downloader (service self))).
Proof.
  unfold downloader_outcome. destruct (downloader (service self)); simpl.
  - apply tracks_resolve.
  - by apply tracks_silent.
Qed.

Lemma tracks_format self r :
  tracks (format_outcome self r)
         match format (service self) with Some n => [n] | None => [] end.
Proof.
  unfold format_outcome. destruct (format (service self)) as [n|].
  - destruct (get_component r n); split; simpl; done.
  - by apply tracks_silent.
Qed.

Lemma tracks_consumer self r pub dl eng :
  tracks (consumer_outcome self r pub dl eng)
         (spec_names (consumer (service self))).
Proof.
  unfold consumer_outcome. destruct (consumer (service self)); simpl.
  - apply tracks_resolve.
  - by apply tracks_silent.
Qed.

Lemma tracks_load_all r specs :
  tracks (load_all_result r specs, load_all_events r specs) (map name specs).
Proof.
  unfold tracks. induction specs as [|spec specs [IHpre IHok]]; simpl.
  - by split.
  - simpl in IHpre, IHok.
    destruct (get_component r (name spec)) as [c|]; simpl.
    + split; [by apply prefix_cons|].
      destruct (load_all_result r specs) as [vs'|]; [|discriminate].
      intros vs _. f_equal. by eapply IHok.
    + split; [|done]. apply prefix_cons, prefix_nil.
Qed.

Lemma lookups_watch_events engine con ws :
  lookups (flat_map (watch_events engine con) ws) = [].
Proof.
  induction ws as [|x ws IH]; simpl; [done|].
  rewrite lookups_app, IH, app_nil_r. unfold watch_events.
  by destruct (isinstance x EngineWatcher), (isinstance x ConsumerWatcher).
Qed.

Lemma tracks_assemble self r : tracks (assemble_outcome self r) (referenced self).
Proof.
  unfold assemble_outcome, referenced, slot_names. rewrite <- !app_assoc.
  apply (tracks_seq _ _ []); [by apply tracks_silent|]. intros tc.
  apply tracks_seq; [apply tracks_publisher|]. intros pub.
  apply tracks_seq; [apply tracks_downloader|]. intros dl.
  apply tracks_seq; [apply tracks_format|]. intros fmt.
  apply (tracks_seq _ _ []); [by apply tracks_silent|]. intros engine.
  apply tracks_seq; [apply tracks_consumer|]. intros con.
  rewrite <- (app_nil_r (watcher_names self)).
  apply tracks_seq; [apply tracks_load_all|]. intros ws.
  apply (tracks_seq _ _ [] []).
  - apply tracks_silent, lookups_watch_events.
  - intros _. by apply tracks_silent.
Qed.

Lemma lookups_load_events pkgs : lookups (load_events pkgs) = [].
Proof. induction pkgs; simpl; done. Qed.

Lemma _load_packages_log pkgs : forall w,
  exists loaded, log (snd (_load_packages pkgs w)) = log w ++ load_events loaded.
Proof.
  induction pkgs as [|p pkgs IH]; intros w.
  - exists []. simpl. by rewrite app_nil_r.
  - rewrite _load_packages_cons.
    destruct (load_components p false (registry w)) as [r|].
    + destruct (IH {| registry := r; log := log w ++ [EvLoadComponents p false] |})
        as [loaded Hl].
      exists (p :: loaded). rewrite Hl. simpl. by rewrite <- app_assoc.
    + by exists [p].
Qed.

Lemma configure_log self w :
  exists evs, log (snd (configure self w)) = log w ++ evs /\ lookups evs = [].
Proof.
  destruct (_load_plugins self w) as [[[]|e] w1] eqn:Hl.
  - rewrite (configure_run _ _ _ Hl). simpl.
    destruct (_load_packages_log (default [] (packages (plugins self))) w)
      as [loaded Hlog].
    unfold _load_plugins in Hl. rewrite Hl in Hlog. simpl in Hlog.
    eexists. rewrite Hlog, <- app_assoc. split; [reflexivity|].
    by rewrite lookups_app, lookups_load_events.
  - unfold configure. rewrite (bind_raise _ _ _ _ _ Hl). simpl.
    destruct (_load_packages_log (default [] (packages (plugins self))) w)
      as [loaded Hlog].
    unfold _load_plugins in Hl. rewrite Hl in Hlog. simpl in Hlog.
    eexists. split; [exact Hlog|]. apply lookups_load_events.
Qed.

(** Whatever the outcome, the names looked up during [build_app] are an
    initial part of the names the manifest refers to, in resolution order;
    all of them when the build succeeds. *)
Lemma build_app_lookups self w :
  exists new,
    log (snd (build_app self w)) = log w ++ new /\
    lookups new `prefix_of` referenced self /\
    (forall con, fst (build_app self w) = Ok con -> lookups new = referenced self).
Proof.
  destruct (configure_log self w) as (evs & Hlog & Hnone).
  rewrite build_app_split. unfold bind.
  destruct (configure self w) as [[[]|e] w2]; simpl in Hlog.
  - rewrite runs_assemble. simpl.
    destruct (tracks_assemble self (registry w2)) as [Hpre Hok].
    exists (evs ++ snd (assemble_outcome self (registry w2))).
    rewrite Hlog, <- app_assoc, lookups_app, Hnone. simpl. done.
  - exists evs. simpl. rewrite Hnone. split; [done|].
    split; [apply prefix_nil|done].
Qed.


(** *** How far a build gets *)

Lemma seq_ok {A B} (o : outcome A) (k : A -> outcome B) a evs :
  o = (Ok a, evs) -> seq o k = (fst (k a), evs ++ snd (k a)).
Proof. intros ->. unfold seq. by destruct (k a). Qed.

Lemma seq_snd_prefix {A B} (o : outcome A) (k : A -> outcome B) :
  exists rest, snd (seq o k) = snd o ++ rest.
Proof.
  destruct o as [[a|e] evs].
  - rewrite (seq_ok _ _ a evs eq_refl). simpl. eauto.
  - simpl. exists []. by rewrite app_nil_r.
Qed.

Lemma assemble_outcome_starts_with_publisher self r :
  exists rest,
    snd (assemble_outcome self r) = snd (publisher_outcome self r) ++ rest.
Proof.
  unfold assemble_outcome. rewrite (seq_ok _ _ _ _ eq_refl).
  cbn [snd app]. apply seq_snd_prefix.
Qed.

Lemma assemble_outcome_upto_engine self r pub evp dl evd fmt evf :
  publisher_outcome self r = (Ok pub, evp) ->
  downloader_outcome self r = (Ok dl, evd) ->
  format_outcome self r = (Ok fmt, evf) ->
  exists rest,
    snd (assemble_outcome self r) =
    (evp ++ evd ++ evf) ++ engine_call self r fmt :: rest.
Proof.
  intros Hp Hd Hf. unfold assemble_outcome.
  rewrite (seq_ok _ _ _ _ eq_refl). cbn beta.
  rewrite (seq_ok _ _ _ _ Hp). cbn beta.
  rewrite (seq_ok _ _ _ _ Hd). cbn beta.
  rewrite (seq_ok _ _ _ _ Hf). cbn beta.
  rewrite (seq_ok _ _ _ _ eq_refl). cbn beta.
  fold (engine_of self r fmt). fold (engine_call self r fmt).
  eexists. cbn [snd fst]. simpl. rewrite <- !app_assoc. reflexivity.
Qed.

Lemma assemble_outcome_watchers_ok self r pub evp dl evd fmt evf con evc ws evw :
  publisher_outcome self r = (Ok pub, evp) ->
  downloader_outcome self r = (Ok dl, evd) ->
  format_outcome self r = (Ok fmt, evf) ->
  consumer_outcome self r pub dl (engine_of self r fmt) = (Ok con, evc) ->
  watchers_outcome self r = (Ok ws, evw) ->
  assemble_outcome self r =
  (Ok con, (evp ++ evd ++ evf ++ [engine_call self r fmt] ++ evc) ++ evw
           ++ flat_map (watch_events (engine_of self r fmt) con) ws).
Proof.
  intros Hp Hd Hf Hc Hw. unfold assemble_outcome.
  rewrite Hp, Hd, Hf. cbn [seq]. fold (engine_of self r fmt).
  rewrite Hc. cbn [seq]. rewrite Hw. cbn [seq].
  fold (engine_call self r fmt). simpl. by rewrite <- !app_assoc, app_nil_r.
Qed.

(** The consumer's construction is the last call of its step. *)
Lemma consumer_outcome_Ok_last self r pub dl eng con evc :
  consumer_outcome self r pub dl eng = (Ok con, evc) ->
  exists f rest kw init,
    con = PInst f (pub :: dl :: eng :: rest) kw /\
    evc = init ++ [EvCall f (pub :: dl :: eng :: rest) kw] /\
    lookups init = spec_names (consumer (service self)) /\
    (consumer (service self) = None -> f = Interactive /\ rest = [] /\ kw = []).
Proof.
  unfold consumer_outcome, resolve.
  destruct (consumer (service self)) as [spec|].
  - destruct (get_component r (name spec)) as [c|]; [|discriminate].
    intros [= <- <-]. unfold instance_of, construction_of. simpl.
    eexists c, _, _, [EvGetComponent (name spec)]. by repeat split.
  - intros [= <- <-]. eexists Interactive, [], [], []. by repeat split.
Qed.

(** What the build does with the slots, once configured. *)
Lemma configured_build_uses_defaults self w w2 :
  configure self w = (Ok tt, w2) ->
  exists new,
    snd (build_app self w) = logged w2 new /\
    (publisher (service self) = None ->
       exists rest, new = EvCall StdOut [] [] :: rest) /\
    (format (service self) = None ->
     first_unresolved (registry w2)
       (spec_names (publisher (service self))
        ++ spec_names (downloader (service self))) = None ->
     exists before rest,
       new = before
             ++ EvCall Engine [py_targets (closure_of self (registry w2));
                               PClass HumanReadableFormat] [] :: rest /\
       lookups before = spec_names (publisher (service self))
                        ++ spec_names (downloader (service self))) /\
    (first_unresolved (registry w2) (slot_names self) = None ->
     exists before f pub dl fmt rest kw after,
       let con :=
         PInst f (pub :: dl
                  :: PInst Engine [py_targets (closure_of self (registry w2));
                                   PClass fmt] []
                  :: rest) kw in
       new = before
             ++ EvCall f (pub :: dl
                          :: PInst Engine
                               [py_targets (closure_of self (registry w2));
                                PClass fmt] []
                          :: rest) kw :: after /\
       lookups before = slot_names self /\
       (publisher (service self) = None -> pub = PInst StdOut [] []) /\
       (downloader (service self) = None -> dl = PClass LocalFS) /\
       (format (service self) = None -> fmt = HumanReadableFormat) /\
       (consumer (service self) = None ->
          f = Interactive /\ rest = [] /\ kw = []) /\
       (first_unresolved (registry w2) (watcher_names self) = None ->
          fst (build_app self w) = Ok con)).
Proof.
  intros Hcfg. rewrite (build_app_run _ _ _ Hcfg).
  set (r := registry w2).
  exists (snd (assemble_outcome self r)). split; [done|].
  split; [|split].
  - intros Hn. destruct (assemble_outcome_starts_with_publisher self r) as [rest Hs].
    rewrite (publisher_outcome_default _ _ Hn) in Hs. by exists rest.
  - intros Hn Hres. rewrite first_unresolved_app in Hres.
    pose proof (publisher_cases self r) as Cp.
    pose proof (tracks_publisher self r) as [_ Tp].
    destruct (first_unresolved r (spec_names (publisher (service self))));
      [discriminate|].
    pose proof (downloader_cases self r) as Cd.
    pose proof (tracks_downloader self r) as [_ Td].
    rewrite Hres in Cd. destruct Cp as [pub Cp], Cd as [dl Cd].
    destruct (publisher_outcome self r) as [? evp] eqn:Hp.
    destruct (downloader_outcome self r) as [? evd] eqn:Hd.
    simpl in *. subst.
    destruct (assemble_outcome_upto_engine _ _ _ _ _ _ _ _
                Hp Hd (format_outcome_default _ r Hn)) as [rest Hs].
    exists (evp ++ evd), rest. split.
    + rewrite Hs. by rewrite !app_nil_r.
    + by rewrite lookups_app, (Tp _ eq_refl), (Td _ eq_refl).
  - intros Hslots. unfold slot_names in Hslots.
    rewrite !first_unresolved_app in Hslots.
    pose proof (publisher_cases self r) as Cp.
    pose proof (tracks_publisher self r) as [_ Tp].
    destruct (first_unresolved r (spec_names (publisher (service self))));
      [discriminate|].
    pose proof (downloader_cases self r) as Cd.
    pose proof (tracks_downloader self r) as [_ Td].
    destruct (first_unresolved r (spec_names (downloader (service self))));
      [discriminate|].
    pose proof (format_cases self r) as Cf.
    pose proof (tracks_format self r) as [_ Tf].
    destruct (first_unresolved r
                match format (service self) with Some n0 => [n0] | None => [] end);
      [discriminate|].
    destruct Cp as [pub Cp], Cd as [dl Cd], Cf as [fmt Cf].
    pose proof (consumer_cases self r pub dl (engine_of self r fmt)) as Cc.
    rewrite Hslots in Cc. destruct Cc as [con Cc].
    destruct (publisher_outcome self r) as [? evp] eqn:Hp.
    destruct (downloader_outcome self r) as [? evd] eqn:Hd.
    destruct (format_outcome self r) as [? evf] eqn:Hf.
    destruct (consumer_outcome self r pub dl (engine_of self r fmt))
      as [? evc] eqn:Hc.
    simpl in Cp, Cd, Cf, Cc, Tp, Td, Tf. subst.
    destruct (consumer_outcome_Ok_last _ _ _ _ _ _ _ Hc)
      as (f & rest & kw & init & Hcon & Hevc & Hinit & Hdef).
    destruct (watchers_outcome self r) as [[ws|e] evw] eqn:Hw.
    + exists (evp ++ evd ++ evf ++ [engine_call self r fmt] ++ init),
        f, pub, dl, fmt, rest, kw,
        (evw ++ flat_map (watch_events (engine_of self r fmt) con) ws).
      cbv zeta.
      rewrite (assemble_outcome_watchers_ok _ _ _ _ _ _ _ _ _ _ _ _
                 Hp Hd Hf Hc Hw).
      split; [|split; [|split; [|split; [|split; [|split]]]]].
      * simpl. rewrite Hevc. unfold engine_of, engine_call.
        repeat (rewrite <- app_assoc; simpl). reflexivity.
      * rewrite !lookups_app, (Tp _ eq_refl), (Td _ eq_refl), (Tf _ eq_refl),
          Hinit. unfold slot_names. reflexivity.
      * intros Hn. rewrite (publisher_outcome_default _ _ Hn) in Hp.
        by injection Hp as <- _.
      * intros Hn. rewrite (downloader_outcome_default _ _ Hn) in Hd.
        by injection Hd as <- _.
      * intros Hn. rewrite (format_outcome_default _ _ Hn) in Hf.
        by injection Hf as <- _.
      * exact Hdef.
      * intros _. simpl. by rewrite Hcon.
    + exists (evp ++ evd ++ evf ++ [engine_call self r fmt] ++ init),
        f, pub, dl, fmt, rest, kw, evw.
      cbv zeta.
      rewrite (assemble_outcome_watchers_raise _ _ _ _ _ _ _ _ _ _ _ _
                 Hp Hd Hf Hc Hw).
      split; [|split; [|split; [|split; [|split; [|split]]]]].
      * simpl. rewrite Hevc. unfold engine_of, engine_call.
        repeat (rewrite <- app_assoc; simpl). reflexivity.
      * rewrite !lookups_app, (Tp _ eq_refl), (Td _ eq_refl), (Tf _ eq_refl),
          Hinit. unfold slot_names. reflexivity.
      * intros Hn. rewrite (publisher_outcome_default _ _ Hn) in Hp.
        by injection Hp as <- _.
      * intros Hn. rewrite (downloader_outcome_default _ _ Hn) in Hd.
        by injection Hd as <- _.
      * intros Hn. rewrite (format_outcome_default _ _ Hn) in Hf.
        by injection Hf as <- _.
      * exact Hdef.
      * intros Hres. pose proof (watchers_cases self r) as Cw.
        fold r in Hres. rewrite Hres, Hw in Cw. destruct Cw as [? Cw].
        discriminate.
Qed.

(** C7.  A slot the manifest omits gets the built-in default and costs no
    registry lookup.  Slot by slot: without [format], [_get_format]
    answers [HumanReadableFormat] and calls nothing; without [publisher],
    [_get_publisher] only calls [StdOut()]; without [downloader],
    [_get_downloader] answers [LocalFS] and calls nothing; without
    [consumer], [_get_consumer] only calls [Interactive(publisher,
    downloader, engine)].  For the build as a whole: the names looked up
    are an initial part of the names of the slots that are present followed
    by the watcher names (with all four slots omitted, of the watcher
    names alone), and a build that succeeds returns a consumer assembled
    from the default of every omitted slot.  And the build does get there:
    once the plugins are loaded and configured, without [publisher] its
    first call is [StdOut()]; without [format], as soon as publisher and
    downloader are resolved, it calls [Engine] with the closure and
    [HumanReadableFormat], having looked up nothing else; and when the slots
    that are present resolve it constructs the consumer -- [Interactive]
    when [consumer] is absent -- from the default of every omitted slot,
    after looking up the names of the present slots only, and returns it
    when the watchers resolve too. *)
Theorem omitted_slots_use_builtin_defaults self w :
  (format (service self) = None ->
     _get_format self w = (Ok HumanReadableFormat, w)) /\
  (publisher (service self) = None ->
     _get_publisher self w =
     (Ok (PInst StdOut [] []), logged w [EvCall StdOut [] []])) /\
  (downloader (service self) = None ->
     _get_downloader self w = (Ok (PClass LocalFS), w)) /\
  (consumer (service self) = None -> forall pub dl eng,
     _get_consumer self pub dl eng w =
     (Ok (PInst Interactive [pub; dl; eng] []),
      logged w [EvCall Interactive [pub; dl; eng] []])) /\
  (exists new,
    log (snd (build_app self w)) = log w ++ new /\
    lookups new `prefix_of` referenced self /\
    (publisher (service self) = None -> downloader (service self) = None ->
     format (service self) = None -> consumer (service self) = None ->
     lookups new `prefix_of` watcher_names self) /\
    (forall con, fst (build_app self w) = Ok con ->
       lookups new = referenced self /\
       exists f pub dl tc fmt rest kw,
         con = PInst f (pub :: dl :: PInst Engine [tc; PClass fmt] [] :: rest) kw /\
         (publisher (service self) = None -> pub = PInst StdOut [] []) /\
         (downloader (service self) = None -> dl = PClass LocalFS) /\
         (format (service self) = None -> fmt = HumanReadableFormat) /\
         (consumer (service self) = None ->
            f = Interactive /\ rest = [] /\ kw = []))) /\
  (forall w2, configure self w = (Ok tt, w2) ->
   exists new,
    snd (build_app self w) = logged w2 new /\
    (publisher (service self) = None ->
       exists rest, new = EvCall StdOut [] [] :: rest) /\
    (format (service self) = None ->
     first_unresolved (registry w2)
       (spec_names (publisher (service self))
        ++ spec_names (downloader (service self))) = None ->
     exists before rest,
       new = before
             ++ EvCall Engine [py_targets (closure_of self (registry w2));
                               PClass HumanReadableFormat] [] :: rest /\
       lookups before = spec_names (publisher (service self))
                        ++ spec_names (downloader (service self))) /\
    (first_unresolved (registry w2) (slot_names self) = None ->
     exists before f pub dl fmt rest kw after,
       let con :=
         PInst f (pub :: dl
                  :: PInst Engine [py_targets (closure_of self (registry w2));
                                   PClass fmt] []
                  :: rest) kw in
       new = before
             ++ EvCall f (pub :: dl
                          :: PInst Engine
                               [py_targets (closure_of self (registry w2));
                                PClass fmt] []
                          :: rest) kw :: after /\
       lookups before = slot_names self /\
       (publisher (service self) = None -> pub = PInst StdOut [] []) /\
       (downloader (service self) = None -> dl = PClass LocalFS) /\
       (format (service self) = None -> fmt = HumanReadableFormat) /\
       (consumer (service self) = None ->
          f = Interactive /\ rest = [] /\ kw = []) /\
       (first_unresolved (registry w2) (watcher_names self) = None ->
          fst (build_app self w) = Ok con))).
Proof.
  split; [|split; [|split; [|split; [|split]]]].
  - intros Hn. unfold _get_format. by rewrite Hn.
  - intros Hn. unfold _get_publisher. by rewrite Hn.
  - intros Hn. unfold _get_downloader. by rewrite Hn.
  - intros Hn pub dl eng. unfold _get_consumer. by rewrite Hn.
  - destruct (build_app_lookups self w) as (new & Hlog & Hpre & Hok).
    exists new. split; [done|]. split; [done|]. split.
    + intros Hp Hd Hf Hc. revert Hpre.
      unfold referenced, slot_names. by rewrite Hp, Hd, Hf, Hc.
    + intros con Hcon. split; [by eapply Hok|]. clear Hok Hlog.
      destruct (build_app self w) as [res w'] eqn:Hb. simpl in Hcon. subst res.
      apply build_app_Ok_shape in Hb
        as (new' & f & pub & dl & fmt & rest & kw & _ & Hshape & _ & _ & _
            & Hp & Hd & Hf & Hc).
      eexists f, pub, dl, _, fmt, rest, kw. split; [exact Hshape|].
      split; [intros Hn; by apply Hp|]. done.
  - intros w2. apply configured_build_uses_defaults.
Qed.

End Properties.

(** ** Further properties of the builder *)

Section FurtherProperties.
Context `{I : Insights}.

(** *** The target closure *)

Lemma update_empty_iff (acc d : gmap string (gset string)) :
  update acc d = ∅ <-> acc = ∅ /\ d = ∅.
Proof.
  unfold update. split.
  - intros H. pose proof (map_positive_l _ _ H) as ->.
    by rewrite (left_id_L ∅ (∪)) in H.
  - intros [-> ->]. by rewrite (left_id_L ∅ (∪)).
Qed.

Lemma foldl_update_empty_iff r cs : forall acc : gmap string (gset string),
  foldl (fun acc c => update acc (get_dependency_graph r c)) acc cs = ∅ <->
  acc = ∅ /\ forall c, In c cs -> get_dependency_graph r c = ∅.
Proof.
  induction cs as [|c cs IH]; intros acc; simpl.
  - split; [intros ->; by split|by intros [-> _]].
  - rewrite IH, update_empty_iff. split.
    + intros [[-> Hc] Hcs]. split; [done|]. intros c' [<-|Hin]; auto.
    + intros [-> H]. split; [split; [done|]|]; auto.
Qed.

(** X1.  [_get_target_components] answers [None] exactly when the target
    list is empty (or absent) or every selected component has an empty
    dependency graph -- in particular when nothing is selected. *)
Theorem closure_is_None_iff self w :
  let tc := default [] (target_components (service self)) in
  _get_target_components self w = (Ok None, w) <->
  tc = [] \/
  forall c, In c (selected (registry w) tc) ->
            get_dependency_graph (registry w) c = ∅.
Proof.
  cbv zeta. rewrite _get_target_components_closure.
  unfold closure_of.
  destruct (default [] (target_components (service self))) as [|p tc].
  - split; auto.
  - rewrite target_loop_foldl. fold (selected (registry w) (p :: tc)).
    unfold or_None. case_decide as Hd.
    + split; [|done]. intros _. right.
      by apply foldl_update_empty_iff in Hd as [_ Hd].
    + split; [intros [= H]; discriminate|].
      intros [H|H]; [discriminate|]. destruct Hd.
      apply foldl_update_empty_iff. by split.
Qed.

Lemma selected_ext r tc1 tc2 :
  (forall s, startswith s tc1 = startswith s tc2) ->
  selected r tc1 = selected r tc2.
Proof. intros H. unfold selected. apply filter_ext. intros c. apply H. Qed.

Lemma startswith_same_prefixes tc1 tc2 s :
  (forall p, In p tc1 <-> In p tc2) -> startswith s tc1 = startswith s tc2.
Proof.
  intros H. apply eq_true_iff_eq. rewrite !startswith_iff.
  split; intros (p & rest & Hin & Hs); exists p, rest; split; auto; by apply H.
Qed.

(** X2.  The closure depends on the target prefixes only as a set: two
    target lists with the same entries, in any order and with any
    repetitions, give the same closure. *)
Theorem closure_ignores_order_and_repetition self1 self2 w tc1 tc2 :
  target_components (service self1) = Some tc1 ->
  target_components (service self2) = Some tc2 ->
  (forall p, In p tc1 <-> In p tc2) ->
  _get_target_components self1 w = _get_target_components self2 w.
Proof.
  intros H1 H2 Hsame. rewrite !_get_target_components_closure. f_equal. f_equal.
  unfold closure_of. rewrite H1, H2. simpl.
  destruct tc1 as [|p1 tc1], tc2 as [|p2 tc2]; try done.
  - destruct (proj2 (Hsame p2)). by left.
  - destruct (proj1 (Hsame p1)). by left.
  - rewrite !target_loop_foldl.
    fold (selected (registry w) (p1 :: tc1)). fold (selected (registry w) (p2 :: tc2)).
    rewrite (selected_ext _ (p1 :: tc1) (p2 :: tc2)); [done|].
    intros s. by apply startswith_same_prefixes.
Qed.

Lemma string_app_assoc (a b c : string) :
  ((a ++ b) ++ c = a ++ (b ++ c))%string.
Proof.
  induction a as [|x a IH]; [done|].
  change (String x ((a ++ b) ++ c) = String x (a ++ (b ++ c)))%string.
  by rewrite IH.
Qed.

Lemma prefix_trans p q s :
  String.prefix p q = true -> String.prefix q s = true -> String.prefix p s = true.
Proof.
  rewrite !prefix_iff. intros [r1 ->] [r2 ->]. exists (r1 ++ r2)%string.
  apply string_app_assoc.
Qed.

(** X3.  A target that extends another target of the list is redundant:
    when [p] is a target and [q] starts with [p], adding [q] to the targets
    changes nothing. *)
Theorem nested_target_is_redundant self1 self2 w tc p q :
  target_components (service self1) = Some tc ->
  target_components (service self2) = Some (q :: tc) ->
  In p tc -> String.prefix p q = true ->
  _get_target_components self2 w = _get_target_components self1 w.
Proof.
  intros H1 H2 Hp Hpq. rewrite !_get_target_components_closure. f_equal. f_equal.
  unfold closure_of. rewrite H1, H2. simpl.
  destruct tc as [|p0 tc]; [destruct Hp|].
  rewrite !target_loop_foldl.
  fold (selected (registry w) (q :: p0 :: tc)). fold (selected (registry w) (p0 :: tc)).
  rewrite (selected_ext _ (q :: p0 :: tc) (p0 :: tc)); [done|].
  intros s.
  change (startswith s (q :: p0 :: tc))
    with (String.prefix q s || startswith s (p0 :: tc)).
  destruct (String.prefix q s) eqn:Hq; [|reflexivity]. cbn [orb]. symmetry.
  apply startswith_iff.
  pose proof (prefix_trans _ _ _ Hpq Hq) as Hps. apply prefix_iff in Hps as [rest ->].
  by exists p, rest.
Qed.

(** X4.  The empty string is a prefix of every name: a target list that
    contains it selects every registered component, so the closure is the
    merge of all their dependency graphs. *)
Theorem empty_target_selects_everything self w tc :
  target_components (service self) = Some tc ->
  In "" tc ->
  selected (registry w) tc = DELEGATES (registry w) /\
  _get_target_components self w =
    (Ok (or_None (merge_subgraphs (registry w) (DELEGATES (registry w)))), w).
Proof.
  intros Htc Hin.
  assert (Hall : selected (registry w) tc = DELEGATES (registry w)).
  { unfold selected. apply forallb_filter_id, forallb_forall. intros c _.
    apply startswith_iff. by exists "", (get_name c). }
  split; [done|].
  rewrite (_get_target_components_run self w tc Htc); [by rewrite Hall|].
  intros ->. destruct Hin.
Qed.

Lemma foldl_update_last r post k : forall acc : gmap string (gset string),
  (forall c, In c post -> get_dependency_graph r c !! k = None) ->
  foldl (fun acc c => update acc (get_dependency_graph r c)) acc post !! k = acc !! k.
Proof.
  induction post as [|c post IH]; intros acc H; simpl; [done|].
  rewrite IH by (intros c' Hc'; apply H; by right).
  unfold update. rewrite lookup_union_r; [done|]. apply H. by left.
Qed.

Lemma foldl_update_app r pre post : forall acc : gmap string (gset string),
  foldl (fun acc c => update acc (get_dependency_graph r c)) acc (pre ++ post) =
  foldl (fun acc c => update acc (get_dependency_graph r c))
        (foldl (fun acc c => update acc (get_dependency_graph r c)) acc pre) post.
Proof. intros acc. apply foldl_app. Qed.

(** X5.  Merging is [dict.update]: when several selected components have
    an entry for the same key, the closure keeps the entry of the one that
    comes last in [dr.DELEGATES]. *)
Theorem closure_keeps_last_entry self w tc pre c post k v :
  target_components (service self) = Some tc -> tc <> [] ->
  selected (registry w) tc = pre ++ c :: post ->
  get_dependency_graph (registry w) c !! k = Some v ->
  (forall c', In c' post -> get_dependency_graph (registry w) c' !! k = None) ->
  exists closure : gmap string (gset string),
    _get_target_components self w = (Ok (Some closure), w) /\
    closure !! k = Some v.
Proof.
  intros Htc Hne Hsel Hc Hpost.
  set (closure := merge_subgraphs (registry w) (selected (registry w) tc)).
  assert (Hk : closure !! k = Some v).
  { unfold closure, merge_subgraphs. rewrite Hsel, foldl_update_app. simpl.
    rewrite foldl_update_last by done.
    unfold update. by apply lookup_union_Some_l. }
  exists closure. split; [|done].
  rewrite (_get_target_components_run self w tc Htc Hne). fold closure.
  unfold or_None. case_decide as Hd; [|done].
  rewrite Hd, lookup_empty in Hk. discriminate.
Qed.

(** X6.  Adding targets never removes a component from the closure: every
    key of the merge for [tc1] is a key of the merge for any list that
    contains the entries of [tc1]. *)
Theorem more_targets_keep_closure_keys r tc1 tc2 k :
  (forall p, In p tc1 -> In p tc2) ->
  is_Some (merge_subgraphs r (selected r tc1) !! k) ->
  is_Some (merge_subgraphs r (selected r tc2) !! k).
Proof.
  intros Hsub [v Hv]. unfold merge_subgraphs in *.
  apply foldl_update_Some in Hv as [Hv|(c & Hc & Hk)].
  - by rewrite lookup_empty in Hv.
  - apply foldl_update_is_Some. right. exists c. split; [|eauto].
    apply selected_iff in Hc as (Hd & p & rest & Hp & Hs).
    apply selected_iff. split; [done|]. exists p, rest. auto.
Qed.

(** *** The order of the calls *)

Lemma seq_Forall {A B} (P : event -> Prop) (o : outcome A) (k : A -> outcome B) :
  Forall P (snd o) -> (forall a, Forall P (snd (k a))) -> Forall P (snd (seq o k)).
Proof.
  intros Ho Hk. unfold seq. destruct o as [[a|e] evs]; simpl in *; [|done].
  specialize (Hk a). destruct (k a) as [res evs']; simpl in *.
  apply Forall_app. by split.
Qed.

Lemma lookup_or_call_resolve r spec pre :
  Forall lookup_or_call (snd (resolve r spec pre)).
Proof.
  unfold resolve. destruct (get_component r (name spec)); simpl;
    repeat constructor.
Qed.

Lemma lookup_or_call_publisher self r :
  Forall lookup_or_call (snd (publisher_outcome self r)).
Proof.
  unfold publisher_outcome. destruct (publisher (service self)).
  - apply lookup_or_call_resolve.
  - repeat constructor.
Qed.

Lemma lookup_or_call_downloader self r :
  Forall lookup_or_call (snd (downloader_outcome self r)).
Proof.
  unfold downloader_outcome. destruct (downloader (service self)).
  - apply lookup_or_call_resolve.
  - constructor.
Qed.

Lemma lookup_or_call_format self r :
  Forall lookup_or_call (snd (format_outcome self r)).
Proof.
  unfold format_outcome. destruct (format (service self)) as [n|]; [|constructor].
  destruct (get_component r n); repeat constructor.
Qed.

Lemma lookup_or_call_consumer self r pub dl eng :
  Forall lookup_or_call (snd (consumer_outcome self r pub dl eng)).
Proof.
  unfold consumer_outcome. destruct (consumer (service self)).
  - apply lookup_or_call_resolve.
  - repeat constructor.
Qed.

Lemma lookup_or_call_load_all r specs :
  Forall lookup_or_call (load_all_events r specs).
Proof.
  induction specs as [|spec specs IH]; simpl; [constructor|].
  destruct (get_component r (name spec)); repeat constructor. done.
Qed.

Lemma lookup_or_call_assembly evs :
  Forall lookup_or_call evs -> Forall assembly_event evs.
Proof. intros H. eapply Forall_impl; [exact H|]. by intros []. Qed.

Lemma assembly_event_watch_events engine con ws :
  Forall assembly_event (flat_map (watch_events engine con) ws).
Proof.
  induction ws as [|x ws IH]; simpl; [constructor|].
  apply Forall_app. split; [|done]. unfold watch_events.
  destruct (isinstance x EngineWatcher), (isinstance x ConsumerWatcher);
    repeat constructor.
Qed.

Lemma assembly_events_only self r :
  Forall assembly_event (snd (assemble_outcome self r)).
Proof.
  unfold assemble_outcome.
  apply seq_Forall; [constructor|]. intros tc.
  apply seq_Forall; [apply lookup_or_call_assembly, lookup_or_call_publisher|].
  intros pub.
  apply seq_Forall; [apply lookup_or_call_assembly, lookup_or_call_downloader|].
  intros dl.
  apply seq_Forall; [apply lookup_or_call_assembly, lookup_or_call_format|].
  intros fmt.
  apply seq_Forall; [repeat constructor|]. intros engine.
  apply seq_Forall; [apply lookup_or_call_assembly, lookup_or_call_consumer|].
  intros con.
  apply seq_Forall; [apply lookup_or_call_assembly, lookup_or_call_load_all|].
  intros ws.
  apply seq_Forall; [apply assembly_event_watch_events|]. intros _. constructor.
Qed.

(** X7.  When the plugin packages load, the calls of [build_app] are, in
    this order: one [load_components] per package, in manifest order; one
    [apply_default_enabled(self.plugins)]; one [apply_configs(self.plugins)];
    and only then lookups, constructions and attachments.  The registry the
    build ends with is the one [apply_configs] left, whether or not the
    assembly then succeeds. *)
Theorem configuration_precedes_assembly self w w1 :
  _load_plugins self w = (Ok tt, w1) ->
  exists rest,
    log (snd (build_app self w)) =
      log w ++ load_events (default [] (packages (plugins self)))
            ++ [EvApplyDefaultEnabled (plugins self);
                EvApplyConfigs (plugins self)]
            ++ rest /\
    Forall assembly_event rest /\
    registry (snd (build_app self w)) =
      apply_configs (plugins self)
        (apply_default_enabled (plugins self) (registry w1)).
Proof.
  intros Hl. pose proof (configure_run _ _ _ Hl) as Hcfg.
  rewrite (build_app_run _ _ _ Hcfg). simpl.
  eexists. split; [|split; [apply assembly_events_only|reflexivity]].
  unfold _load_plugins in Hl. rewrite (_load_packages_ok_log _ _ _ Hl).
  by rewrite <- !app_assoc.
Qed.

(** *** Success and failure *)

Lemma first_unresolved_None r names :
  first_unresolved r names = None <->
  forall n, In n names -> is_Some (get_component r n).
Proof.
  unfold first_unresolved. split.
  - intros H n Hin. apply (find_none _ _ H) in Hin.
    destruct (get_component r n); [eauto|discriminate].
  - intros H. destruct (find _ names) as [n|] eqn:Hf; [|done].
    apply find_some in Hf as [Hin Hn]. destruct (H n Hin) as [c Hc].
    by rewrite Hc in Hn.
Qed.

Lemma seq_cases_resolved {A B} r (o : outcome A) (k : A -> outcome B) names rest :
  match first_unresolved r names with
  | Some n => fst o = Raise (Exception (couldnt_find n))
  | None => exists v, fst o = Ok v
  end ->
  (forall a, first_unresolved r rest = None -> exists v, fst (k a) = Ok v) ->
  first_unresolved r (names ++ rest) = None ->
  exists v, fst (seq o k) = Ok v.
Proof.
  intros Ho Hk. rewrite first_unresolved_app.
  destruct o as [res evs].
  destruct (first_unresolved r names) as [n'|]; simpl in Ho; [discriminate|].
  destruct Ho as [v ->]. intros H. unfold seq.
  destruct (Hk v H) as [b Hb]. destruct (k v). simpl in Hb. subst. eauto.
Qed.

Lemma assemble_outcome_resolved self r :
  first_unresolved r (referenced self) = None ->
  exists con, fst (assemble_outcome self r) = Ok con.
Proof.
  unfold referenced, slot_names, assemble_outcome. rewrite <- !app_assoc.
  apply (seq_cases_resolved r _ _ []); [simpl; eauto|]. intros tc.
  apply seq_cases_resolved; [apply publisher_cases|]. intros pub.
  apply seq_cases_resolved; [apply downloader_cases|]. intros dl.
  apply seq_cases_resolved; [apply format_cases|]. intros fmt.
  apply (seq_cases_resolved r _ _ []); [simpl; eauto|]. intros engine.
  apply seq_cases_resolved; [apply consumer_cases|]. intros con.
  rewrite <- (app_nil_r (watcher_names self)).
  apply seq_cases_resolved; [apply watchers_cases|]. intros ws _.
  simpl. eauto.
Qed.

(** X8.  Once the plugins are loaded and configured, [build_app] returns a
    consumer exactly when every name the manifest refers to -- the slots
    that are present and the watchers -- resolves in the registry. *)
Theorem build_succeeds_iff_names_resolve self w w2 :
  configure self w = (Ok tt, w2) ->
  (exists con w', build_app self w = (Ok con, w')) <->
  (forall n, In n (referenced self) -> is_Some (get_component (registry w2) n)).
Proof.
  intros Hcfg. rewrite (build_app_run _ _ _ Hcfg), <- first_unresolved_None.
  split.
  - intros (con & w' & H).
    destruct (first_unresolved (registry w2) (referenced self)) as [n|] eqn:Hf;
      [|done].
    rewrite (assemble_outcome_first_unresolved _ _ _ Hf) in H. discriminate.
  - intros Hf. destruct (assemble_outcome_resolved _ _ Hf) as [con Hcon].
    rewrite Hcon. eauto.
Qed.

Lemma _load_packages_raise pkgs : forall w e w',
  _load_packages pkgs w = (Raise e, w') ->
  exists pre p post,
    pkgs = pre ++ p :: post /\ e = LoadFailure p /\
    log w' = log w ++ load_events (pre ++ [p]).
Proof.
  induction pkgs as [|q pkgs IH]; intros w e w' H; [discriminate|].
  rewrite _load_packages_cons in H.
  destruct (load_components q false (registry w)) as [r|].
  - apply IH in H as (pre & p & post & -> & -> & Hlog).
    exists (q :: pre), p, post. split; [done|]. split; [done|].
    rewrite Hlog. simpl. by rewrite <- app_assoc.
  - injection H as <- <-. by exists [], q, pkgs.
Qed.

Lemma configure_raise self w e w' :
  configure self w = (Raise e, w') -> _load_plugins self w = (Raise e, w').
Proof.
  intros H. destruct (_load_plugins self w) as [[[]|e1] w1] eqn:Hl.
  - rewrite (configure_run _ _ _ Hl) in H. discriminate.
  - unfold configure in H. by rewrite (bind_raise _ _ _ _ _ Hl) in H.
Qed.

(** X9.  [build_app] fails in two ways only.  Either a package of
    [plugins.packages] failed to load, and then nothing but the
    [load_components] calls up to that package was made; or the
    configuration went through and the failure is [Exception("Couldn't
    find n.")] for a name [n] the manifest refers to and the registry does
    not resolve. *)
Theorem build_failures self w e w' :
  build_app self w = (Raise e, w') ->
  (exists pre p post,
     default [] (packages (plugins self)) = pre ++ p :: post /\
     e = LoadFailure p /\
     log w' = log w ++ load_events (pre ++ [p])) \/
  (exists w2 n,
     configure self w = (Ok tt, w2) /\
     e = Exception (couldnt_find n) /\
     In n (referenced self) /\
     get_component (registry w2) n = None).
Proof.
  intros H. rewrite build_app_split in H.
  destruct (configure self w) as [[[]|e1] w2] eqn:Hcfg.
  - right. rewrite (bind_ok _ _ _ _ _ Hcfg), runs_assemble in H.
    destruct (first_unresolved (registry w2) (referenced self)) as [n|] eqn:Hf.
    + rewrite (assemble_outcome_first_unresolved _ _ _ Hf) in H.
      injection H as <- _. apply first_unresolved_Some in Hf as [Hin Hn].
      by exists w2, n.
    + destruct (assemble_outcome_resolved _ _ Hf) as [con Hcon].
      rewrite Hcon in H. discriminate.
  - left. rewrite (bind_raise _ _ _ _ _ Hcfg) in H. injection H as <- <-.
    apply configure_raise in Hcfg. unfold _load_plugins in Hcfg.
    by apply _load_packages_raise in Hcfg.
Qed.

Lemma seq_fails_quietly {A B} (o : outcome A) (k : A -> outcome B) :
  Forall lookup_or_call (snd o) -> (forall a, fails_quietly (k a)) ->
  fails_quietly (seq o k).
Proof.
  intros Ho Hk e. unfold seq. destruct o as [[a|e1] evs]; simpl in *; [|done].
  specialize (Hk a e). destruct (k a) as [res evs']; simpl in *.
  intros H. apply Forall_app. split; [done|]. by apply Hk.
Qed.

Lemma assemble_fails_quietly self r : fails_quietly (assemble_outcome self r).
Proof.
  unfold assemble_outcome.
  apply seq_fails_quietly; [constructor|]. intros tc.
  apply seq_fails_quietly; [apply lookup_or_call_publisher|]. intros pub.
  apply seq_fails_quietly; [apply lookup_or_call_downloader|]. intros dl.
  apply seq_fails_quietly; [apply lookup_or_call_format|]. intros fmt.
  apply seq_fails_quietly; [repeat constructor|]. intros engine.
  apply seq_fails_quietly; [apply lookup_or_call_consumer|]. intros con.
  apply seq_fails_quietly; [apply lookup_or_call_load_all|]. intros ws.
  intros e. simpl. discriminate.
Qed.

Lemma lookup_or_call_not_watch evs x t :
  Forall lookup_or_call evs -> ~ In (EvWatch x t) evs.
Proof. intros H Hin. rewrite List.Forall_forall in H. apply (H _ Hin). Qed.

(** X10.  A build that fails has attached no watcher to anything: no
    [watch] call is made unless every slot and every watcher was resolved
    and constructed. *)
Theorem failed_build_attaches_nothing self w e w' :
  build_app self w = (Raise e, w') ->
  exists new,
    log w' = log w ++ new /\
    forall x t, ~ In (EvWatch x t) new.
Proof.
  intros H. rewrite build_app_split in H.
  destruct (configure self w) as [[[]|e1] w2] eqn:Hcfg.
  - rewrite (bind_ok _ _ _ _ _ Hcfg), runs_assemble in H.
    injection H as He <-.
    pose proof (assemble_fails_quietly self (registry w2) e He) as Hq.
    destruct (configure_inv _ _ _ Hcfg) as (w1 & _ & _ & Hlog).
    eexists. split; [simpl; rewrite Hlog, <- !app_assoc; reflexivity|].
    intros x t. rewrite !in_app_iff. intros [Hin|[Hin|Hin]].
    + unfold load_events in Hin. apply in_map_iff in Hin as (? & ? & _).
      discriminate.
    + destruct Hin as [|[|[]]]; discriminate.
    + revert Hin. by apply lookup_or_call_not_watch.
  - rewrite (bind_raise _ _ _ _ _ Hcfg) in H. injection H as <- <-.
    apply configure_raise in Hcfg. unfold _load_plugins in Hcfg.
    apply _load_packages_raise in Hcfg as (pre & p & post & _ & _ & Hlog).
    eexists. split; [exact Hlog|]. intros x t Hin.
    unfold load_events in Hin. apply in_map_iff in Hin as (? & ? & _).
    discriminate.
Qed.

(** X11.  In a build that succeeds every watcher is constructed before
    any watcher is attached: the [watch] calls are the last calls of the
    build, and they are made watcher by watcher in the order of
    [service.watchers], for each watcher the engine first and the consumer
    second, each at most once. *)
Theorem attachments_come_last_in_watcher_order self w con w' :
  build_app self w = (Ok con, w') ->
  exists w2 before engine ws,
    configure self w = (Ok tt, w2) /\
    log w' = log w ++ before ++ flat_map (watch_events engine con) ws /\
    (forall x t, ~ In (EvWatch x t) before) /\
    (exists f pub dl rest kw, con = PInst f (pub :: dl :: engine :: rest) kw) /\
    Forall2 (fun spec x =>
               exists c, get_component (registry w2) (name spec) = Some c /\
                         x = instance_of c [] spec)
            (default [] (watchers (service self))) ws.
Proof.
  intros H.
  apply build_app_Ok_inv in H
    as (w2 & pub & evp & dl & evd & fmt & evf & evc & ws & evw
        & Hcfg & Hp & Hd & Hf & Hc & Hw & ->).
  set (r := registry w2) in *.
  destruct (configure_inv _ _ _ Hcfg) as (w1 & _ & _ & Hlog).
  destruct (consumer_outcome_Ok _ _ _ _ _ _ _ Hc) as (f & rest & kw & Hcon & _ & _).
  exists w2,
    ((load_events (default [] (packages (plugins self)))
      ++ [EvApplyDefaultEnabled (plugins self); EvApplyConfigs (plugins self)])
     ++ (evp ++ evd ++ evf ++ [engine_call self r fmt] ++ evc ++ evw)),
    (engine_of self r fmt), ws.
  split; [done|]. split; [|split; [|split]].
  - simpl. rewrite Hlog. rewrite <- !app_assoc. simpl.
    rewrite <- ?app_assoc. reflexivity.
  - intros x t. rewrite in_app_iff. intros [Hin|Hin].
    + revert Hin. apply quiet_not_watch, Forall_app.
      split; [apply quiet_load_events|repeat constructor].
    + revert Hin. apply quiet_not_watch.
      exact (quiet_pipeline _ _ _ _ _ _ _ _ _ _ _ _ Hp Hd Hf Hc Hw).
  - by exists f, pub, dl, rest, kw.
  - unfold watchers_outcome in Hw. injection Hw as Hres _.
    eapply Forall2_impl; [apply (load_all_result_Ok _ _ _ Hres)|].
    intros spec x (c & ? & ? & _). eauto.
Qed.

(** X12.  The publisher is resolved first: when [service.publisher] names
    a component the registry does not resolve, the build fails on that one
    lookup -- nothing has been constructed, whatever the other slots say. *)
Theorem unresolved_publisher_stops_the_build_at_once self w w2 spec :
  configure self w = (Ok tt, w2) ->
  publisher (service self) = Some spec ->
  get_component (registry w2) (name spec) = None ->
  build_app self w =
  (Raise (Exception (couldnt_find (name spec))),
   logged w2 [EvGetComponent (name spec)]).
Proof.
  intros Hcfg Hp Hn. rewrite (build_app_run _ _ _ Hcfg).
  unfold assemble_outcome, publisher_outcome, resolve. rewrite Hp, Hn.
  reflexivity.
Qed.

Lemma closure_of_nonempty self r (g : gmap string (gset string)) :
  closure_of self r = Some g -> g <> ∅.
Proof.
  unfold closure_of, or_None.
  destruct (default [] (target_components (service self))); [discriminate|].
  case_decide; [discriminate|]. by intros [= <-].
Qed.

(** X13.  A build that succeeds calls [Engine] with two positional
    arguments and no keyword: what [_get_target_components] computed after
    configuration -- [None] or a mapping with at least one entry, never an
    empty mapping -- and the format class, which is [HumanReadableFormat]
    when [service.format] is absent and what that name resolves to
    otherwise.  Any other call of [Engine] during the build is the call of
    a class that a name of the manifest resolved to; so [Engine] is called
    exactly once unless the manifest names the engine class itself. *)
Theorem engine_is_constructed_once self w con w' :
  build_app self w = (Ok con, w') ->
  exists w2 before after (tc : option (gmap string (gset string))) fmt,
    configure self w = (Ok tt, w2) /\
    log w' = log w ++ before
                   ++ EvCall Engine [py_targets tc; PClass fmt] [] :: after /\
    _get_target_components self w2 = (Ok tc, w2) /\
    match format (service self) with
    | None => fmt = HumanReadableFormat
    | Some n => get_component (registry w2) n = Some fmt
    end /\
    (tc = None \/ exists g, tc = Some g /\ g <> ∅) /\
    (forall a k, In (EvCall Engine a k) (before ++ after) ->
                 named_by_manifest self (registry w2) Engine).
Proof.
  intros H.
  apply build_app_Ok_inv in H
    as (w2 & pub & evp & dl & evd & fmt & evf & evc & ws & evw
        & Hcfg & Hp & Hd & Hf & Hc & Hw & ->).
  set (r := registry w2) in *.
  destruct (configure_inv _ _ _ Hcfg) as (w1 & _ & _ & Hlog).
  destruct (spec_call_pipeline _ _ _ _ _ _ _ _ _ _ _ _ Hp Hd Hf Hc Hw)
    as [Q1 Q2].
  set (cfg := load_events (default [] (packages (plugins self)))
              ++ [EvApplyDefaultEnabled (plugins self);
                  EvApplyConfigs (plugins self)]).
  set (att := flat_map (watch_events (engine_of self r fmt) con) ws).
  exists w2, (cfg ++ (evp ++ evd ++ evf)), ((evc ++ evw) ++ att),
    (closure_of self r), fmt.
  split; [done|]. split; [|split; [|split; [|split]]].
  - simpl. rewrite Hlog. unfold engine_call, cfg, att.
    rewrite <- !app_assoc. simpl. rewrite <- ?app_assoc. reflexivity.
  - apply _get_target_components_closure.
  - unfold format_outcome in Hf. destruct (format (service self)) as [n|].
    + fold r. destruct (get_component r n); [|discriminate].
      by injection Hf as <- _.
    + by injection Hf as <- _.
  - destruct (closure_of self r) as [g|] eqn:Hg; [right|by left].
    exists g. split; [done|]. by eapply closure_of_nonempty.
  - intros a k Hin.
    apply in_app_or in Hin as [Hin|Hin];
      [apply in_app_or in Hin as [Hin|Hin]
      |apply in_app_or in Hin as [Hin|Hin]].
    + unfold cfg in Hin. apply in_app_or in Hin as [Hin|Hin].
      * unfold load_events in Hin. apply in_map_iff in Hin as (? & ? & _).
        discriminate.
      * destruct Hin as [|[|[]]]; discriminate.
    + eapply spec_call_named; [exact Q1|exact Hin|discriminate|discriminate].
    + eapply spec_call_named; [exact Q2|exact Hin|discriminate|discriminate].
    + unfold att in Hin. apply in_flat_map in Hin as (y & _ & Hy).
      unfold watch_events in Hy. apply in_app_iff in Hy.
      destruct (isinstance y EngineWatcher), (isinstance y ConsumerWatcher);
        simpl in Hy; intuition discriminate.
Qed.

(** X14.  [_get_publisher] and [_get_consumer] repeat the body of [_load]
    instead of calling it, and they do the same thing: [_get_publisher] is
    [_load] of its spec, and [_get_consumer] is [_load] of its spec with
    publisher, downloader and engine placed before the spec's positional
    arguments -- on success and on failure alike. *)
Theorem slot_loaders_agree_with_load self spec pub dl eng w :
  (publisher (service self) = Some spec ->
     _get_publisher self w = _load spec w) /\
  (consumer (service self) = Some spec ->
     _get_consumer self pub dl eng w = _load (prepend_args [pub; dl; eng] spec) w).
Proof.
  split; intros H.
  - unfold _get_publisher. by rewrite H.
  - unfold _get_consumer. by rewrite H.
Qed.

(** X15.  A manifest without a [service] section builds the all-default
    pipeline, whatever its other sections say: once the plugins are loaded
    and configured the build makes three calls, [StdOut()],
    [Engine(None, HumanReadableFormat)] and [Interactive(publisher, LocalFS,
    engine)], looks nothing up, and returns that consumer. *)
Theorem manifest_without_service_builds_defaults (m : Manifest) w w2 :
  m_service m = None ->
  configure (__init__ (Some m)) w = (Ok tt, w2) ->
  let engine := PInst Engine [PNone; PClass HumanReadableFormat] [] in
  let con := PInst Interactive [PInst StdOut [] []; PClass LocalFS; engine] [] in
  build_app (__init__ (Some m)) w =
  (Ok con,
   logged w2 [EvCall StdOut [] [];
              EvCall Engine [PNone; PClass HumanReadableFormat] [];
              EvCall Interactive [PInst StdOut [] []; PClass LocalFS; engine] []]).
Proof.
  intros Hs Hcfg. rewrite (build_app_run _ _ _ Hcfg).
  destruct m as [mp mc ms]. simpl in Hs. subst ms. reflexivity.
Qed.

End FurtherProperties.

(** ** Runs on the small registry *)

Module ToyRuns.
Import Toy.

(** *** Plugin loading (C4) *)

Lemma load_failure_aborts_build_witness :
  exists w',
    build_app (builder ["pkg.a"; "pkg.missing"; "pkg.b"] no_service) w0 =
      (Raise (LoadFailure "pkg.missing"), w') /\
    log w' = log w0 ++ load_events (["pkg.a"] ++ ["pkg.missing"]) /\
    (forall q b,
       In (EvLoadComponents q b) (load_events (["pkg.a"] ++ ["pkg.missing"])) ->
       b = false) /\
    (forall f a k, ~ In (EvCall f a k) (load_events (["pkg.a"] ++ ["pkg.missing"]))).
Proof.
  apply (load_failure_aborts_build
           (builder ["pkg.a"; "pkg.missing"; "pkg.b"] no_service) w0
           ["pkg.a"] "pkg.missing" ["pkg.b"]
           (at_registry ["pkg.a.x"; "pkg.a.y"] [EvLoadComponents "pkg.a" false]));
    reflexivity.
Defined.

(** *** Target closure (C2, C3) *)

Lemma loaded_ab_registry : registry loaded_ab = ["pkg.a.x"; "pkg.a.y"; "pkg.b.z"].
Proof. reflexivity. Qed.

Lemma target_closure_is_merge_of_selected_witness :
  exists closure : gmap string (gset string),
    _get_target_components (builder ["pkg.a"; "pkg.b"] (targets ["pkg.a"])) loaded_ab
      = (Ok (Some closure), loaded_ab) /\
    closure = merge_subgraphs (registry loaded_ab) ["pkg.a.x"; "pkg.a.y"] /\
    closure !! "pkg.a.x" = Some {[ "dep.one" ]} /\
    closure !! "pkg.a.y" = Some {[ "dep.one"; "dep.two" ]} /\
    closure !! "pkg.b.z" = None /\
    closure !! "dep.three" = None.
Proof.
  destruct (target_closure_is_merge_of_selected
              (builder ["pkg.a"; "pkg.b"] (targets ["pkg.a"])) loaded_ab ["pkg.a"])
    as (_ & Hsome & _); [reflexivity | discriminate |].
  eexists. split; [apply Hsome; by vm_compute|].
  repeat split; by vm_compute.
Defined.

(** A raw prefix: the target [pkg.a] also selects [pkg.ab.x]. *)
Lemma startswith_is_not_segment_aware :
  startswith "pkg.ab.x" ["pkg.a"] = true /\ startswith "pkg.b.z" ["pkg.a"] = false.
Proof. split; reflexivity. Qed.

Lemma unmatched_targets_mean_no_restriction_witness :
  _get_target_components (builder ["pkg.b"] (targets ["pkg.a"]))
    (snd (configure (builder ["pkg.b"] (targets ["pkg.a"])) w0))
  = (Ok None, snd (configure (builder ["pkg.b"] (targets ["pkg.a"])) w0)) /\
  build_app (builder ["pkg.b"] (targets ["pkg.a"])) w0 =
  build_app (without_targets (builder ["pkg.b"] (targets ["pkg.a"]))) w0.
Proof.
  apply (unmatched_targets_mean_no_restriction
           (builder ["pkg.b"] (targets ["pkg.a"])) w0 _ ["pkg.a"]).
  - reflexivity.
  - discriminate.
  - reflexivity.
  - intros c [<-|[]]. reflexivity.
Defined.

(** *** Unresolved names (C5) *)



(** *** Construction arguments (C6) *)

Lemma spec_arguments_are_passed_in_order_witness :
  let pub := PInst StdOut [] [] in
  let dl := PClass LocalFS in
  let eng := PInst Engine [PNone; PClass HumanReadableFormat] [] in
  _get_consumer (builder [] (with_consumer consumer_spec)) pub dl eng w0 =
  (Ok (PInst (Registered "svc.Consumer")
             [pub; dl; eng; PInt 1; PStr "x"] [("verbose", PBool true)]),
   logged w0 [EvGetComponent "svc.Consumer";
              EvCall (Registered "svc.Consumer")
                     [pub; dl; eng; PInt 1; PStr "x"] [("verbose", PBool true)]]).
Proof.
  intros pub dl eng.
  destruct (spec_arguments_are_passed_in_order
              (builder [] (with_consumer consumer_spec)) consumer_spec w0
              (Registered "svc.Consumer") pub dl eng eq_refl)
    as (_ & _ & _ & _ & Hcon & _).
  exact (Hcon eq_refl).
Defined.

(** *** Defaults (C7, C9) *)

Lemma omitted_slots_use_builtin_defaults_witness :
  (_get_format (builder [] no_service) w0 = (Ok HumanReadableFormat, w0) /\
   _get_publisher (builder [] no_service) w0 =
     (Ok (PInst StdOut [] []), logged w0 [EvCall StdOut [] []]) /\
   _get_downloader (builder [] no_service) w0 = (Ok (PClass LocalFS), w0) /\
   (forall pub dl eng,
      _get_consumer (builder [] no_service) pub dl eng w0 =
      (Ok (PInst Interactive [pub; dl; eng] []),
       logged w0 [EvCall Interactive [pub; dl; eng] []]))) /\
  exists new,
    snd (build_app (builder [] (watching ["svc.Missing"])) w0) =
      logged (snd (configure (builder [] (watching ["svc.Missing"])) w0)) new /\
    (exists rest, new = EvCall StdOut [] [] :: rest) /\
    (exists before rest,
       new = before
             ++ EvCall Engine [PNone; PClass HumanReadableFormat] [] :: rest /\
       lookups before = []) /\
    (exists before f pub dl fmt rest kw after,
       new = before
             ++ EvCall f (pub :: dl :: PInst Engine [PNone; PClass fmt] [] :: rest) kw
             :: after /\
       lookups before = [] /\
       pub = PInst StdOut [] [] /\ dl = PClass LocalFS /\
       fmt = HumanReadableFormat /\
       f = Interactive /\ rest = [] /\ kw = []) /\
    fst (build_app (builder [] no_service) w0) = Ok toy_consumer.
Proof.
  destruct (omitted_slots_use_builtin_defaults (builder [] no_service) w0)
    as (Hf & Hp & Hd & Hc & _ & Hb0).
  destruct (omitted_slots_use_builtin_defaults
              (builder [] (watching ["svc.Missing"])) w0)
    as (_ & _ & _ & _ & _ & Hb).
  split.
  { split; [exact (Hf eq_refl)|]. split; [exact (Hp eq_refl)|].
    split; [exact (Hd eq_refl)|]. exact (Hc eq_refl). }
  destruct (Hb _ eq_refl) as (new & Hnew & HP & HF & HC).
  exists new. split; [exact Hnew|]. split; [exact (HP eq_refl)|].
  split; [exact (HF eq_refl eq_refl)|]. split.
  - destruct (HC eq_refl)
      as (before & f & pub & dl & fmt & rest & kw & after
          & E & L & Dp & Dd & Df & Dc & _).
    exists before, f, pub, dl, fmt, rest, kw, after.
    destruct (Dc eq_refl) as (? & ? & ?).
    split; [exact E|]. split; [exact L|].
    split; [exact (Dp eq_refl)|]. split; [exact (Dd eq_refl)|].
    split; [exact (Df eq_refl)|]. done.
  - destruct (Hb0 _ eq_refl) as (new0 & _ & _ & _ & HC0).
    destruct (HC0 eq_refl)
      as (before & f & pub & dl & fmt & rest & kw & after
          & _ & _ & Dp & Dd & Df & Dc & Hres).
    destruct (Dc eq_refl) as (-> & -> & ->).
    rewrite (Dp eq_refl), (Dd eq_refl), (Df eq_refl) in Hres.
    exact (Hres eq_refl).
Defined.

Lemma default_downloader_is_a_class_default_publisher_an_instance_witness :
  _get_downloader (builder [] no_service) w0 = (Ok (PClass LocalFS), w0) /\
  _get_publisher (builder [] no_service) w0 =
    (Ok (PInst StdOut [] []), logged w0 [EvCall StdOut [] []]) /\
  exists new f pub dl engine rest kw,
    log (snd (build_app (builder [] no_service) w0)) = log w0 ++ new /\
    toy_consumer = PInst f (pub :: dl :: engine :: rest) kw /\
    In (EvCall f (pub :: dl :: engine :: rest) kw) new /\
    (downloader (service (builder [] no_service)) = None ->
       dl = PClass LocalFS /\
       forall a k, In (EvCall LocalFS a k) new ->
                   named_by_manifest (builder [] no_service)
                     (registry (snd (build_app (builder [] no_service) w0)))
                     LocalFS) /\
    (publisher (service (builder [] no_service)) = None ->
       pub = PInst StdOut [] [] /\ In (EvCall StdOut [] []) new).
Proof.
  destruct (default_downloader_is_a_class_default_publisher_an_instance
              (builder [] no_service) w0) as (Hd & Hp & Hb).
  split; [exact (Hd eq_refl)|]. split; [exact (Hp eq_refl)|].
  apply (Hb toy_consumer (snd (build_app (builder [] no_service) w0))).
  reflexivity.
Defined.

(** *** Watchers (C8, C10) *)

Lemma four_watchers_attachments :
  fst (build_app four_watchers w0) = Ok toy_consumer /\
  attachments (log (snd (build_app four_watchers w0))) =
  [ (PInst (Registered "svc.EngineStats") [] [], toy_engine);
    (PInst (Registered "svc.ConsumerStats") [] [], toy_consumer);
    (PInst (Registered "svc.BothStats") [] [], toy_engine);
    (PInst (Registered "svc.BothStats") [] [], toy_consumer) ].
Proof. split; reflexivity. Qed.

Lemma watchers_attached_by_capability_witness :
  exists w2 engine ws new,
    configure four_watchers w0 = (Ok tt, w2) /\
    log (snd (build_app four_watchers w0)) = log w0 ++ new /\
    constructed new engine /\
    (exists tc fmt, engine = PInst Engine [tc; PClass fmt] []) /\
    (exists f pub dl rest kw,
       toy_consumer = PInst f (pub :: dl :: engine :: rest) kw) /\
    Forall2 (fun spec x =>
               exists c, get_component (registry w2) (name spec) = Some c /\
                         x = instance_of c [] spec /\
                         In (construction_of c [] spec) new)
            (default [] (watchers (service four_watchers))) ws /\
    (forall x, In x ws ->
       (In (EvWatch x engine) new <-> isinstance x EngineWatcher = true) /\
       (In (EvWatch x toy_consumer) new <-> isinstance x ConsumerWatcher = true)) /\
    (forall x t, In (EvWatch x t) new ->
       In x ws /\ (t = engine \/ t = toy_consumer)).
Proof.
  apply (watchers_attached_by_capability four_watchers w0 toy_consumer
           (snd (build_app four_watchers w0))).
  reflexivity.
Defined.

Lemma watcher_failure_follows_pipeline_construction_witness :
  exists pub dl fmt con before after,
    let engine :=
      PInst Engine [py_targets (closure_of missing_watcher
                                  (registry (snd (configure missing_watcher w0))));
                    PClass fmt] [] in
    build_app missing_watcher w0 =
      (Raise (Exception (couldnt_find "svc.Missing")),
       logged (snd (configure missing_watcher w0)) (before ++ after)) /\
    constructed before pub /\
    constructed before engine /\
    constructed before con /\
    (exists f rest kw, con = PInst f (pub :: dl :: engine :: rest) kw) /\
    match downloader (service missing_watcher) with
    | Some _ => constructed before dl
    | None => dl = PClass LocalFS /\
              (forall w1, _get_downloader missing_watcher w1
                          = (Ok (PClass LocalFS), w1)) /\
              forall a k, In (EvCall LocalFS a k) (before ++ after) ->
                          named_by_manifest missing_watcher
                            (registry (snd (configure missing_watcher w0)))
                            LocalFS
    end /\
    after = load_all_events (registry (snd (configure missing_watcher w0)))
              (default [] (watchers (service missing_watcher))) /\
    (exists init, after = init ++ [EvGetComponent "svc.Missing"]) /\
    (forall x t, ~ In (EvWatch x t) (before ++ after)).
Proof.
  apply (watcher_failure_follows_pipeline_construction missing_watcher w0
           (snd (configure missing_watcher w0)) "svc.Missing");
    reflexivity.
Defined.

(** With [service.downloader] absent and an unresolvable watcher, the
    build fails after [StdOut], [Engine] and [Interactive] were called, but
    the downloader the consumer received is the class [LocalFS]: no call
    constructed it. *)
Lemma default_downloader_not_constructed_before_watcher_failure :
  get_component (registry (snd (configure missing_watcher w0))) "svc.Missing" = None /\
  fst (build_app missing_watcher w0)
    = Raise (Exception "Couldn't find svc.Missing.") /\
  log (snd (build_app missing_watcher w0)) =
    [EvApplyDefaultEnabled (plugins missing_watcher);
     EvApplyConfigs (plugins missing_watcher);
     EvCall StdOut [] [];
     EvCall Engine [PNone; PClass HumanReadableFormat] [];
     EvCall Interactive [PInst StdOut [] []; PClass LocalFS; toy_engine] [];
     EvGetComponent "svc.Missing"] /\
  ~ all_four_constructed (log (snd (build_app missing_watcher w0))).
Proof.
  split; [reflexivity|]. split; [reflexivity|]. split; [reflexivity|].
  intros (f & pub & dl & engine & rest & kw & Hin & _ & Hdl & _).
  destruct Hdl as (g & a & k & -> & _).
  vm_compute in Hin.
  repeat (destruct Hin as [Hin|Hin]; [discriminate Hin|]).
  destruct Hin.
Qed.

(** [svc.BothStats] has both capabilities and is constructed, but the next
    watcher spec does not resolve: the build raises inside [_get_watchers],
    before the attaching loop, and the constructed watcher is attached to
    nothing. *)
Lemma constructed_watcher_is_left_unattached_when_a_later_one_fails :
  let x := PInst (Registered "svc.BothStats") [] [] in
  isinstance x EngineWatcher = true /\
  isinstance x ConsumerWatcher = true /\
  fst (build_app half_watched w0)
    = Raise (Exception "Couldn't find svc.Missing.") /\
  log (snd (build_app half_watched w0)) =
    [EvApplyDefaultEnabled (plugins half_watched);
     EvApplyConfigs (plugins half_watched);
     EvCall StdOut [] [];
     EvCall Engine [PNone; PClass HumanReadableFormat] [];
     EvCall Interactive [PInst StdOut [] []; PClass LocalFS; toy_engine] [];
     EvGetComponent "svc.BothStats";
     EvCall (Registered "svc.BothStats") [] [];
     EvGetComponent "svc.Missing"] /\
  In (EvCall (Registered "svc.BothStats") [] [])
     (log (snd (build_app half_watched w0))) /\
  forall t, ~ In (EvWatch x t) (log (snd (build_app half_watched w0))).
Proof.
  assert (E : log (snd (build_app half_watched w0)) =
    [EvApplyDefaultEnabled (plugins half_watched);
     EvApplyConfigs (plugins half_watched);
     EvCall StdOut [] [];
     EvCall Engine [PNone; PClass HumanReadableFormat] [];
     EvCall Interactive [PInst StdOut [] []; PClass LocalFS; toy_engine] [];
     EvGetComponent "svc.BothStats";
     EvCall (Registered "svc.BothStats") [] [];
     EvGetComponent "svc.Missing"]) by reflexivity.
  intros x. split; [reflexivity|]. split; [reflexivity|].
  split; [reflexivity|]. split; [exact E|]. rewrite E. split.
  - do 6 right. by left.
  - intros t Hin.
    repeat (destruct Hin as [Hin|Hin]; [discriminate Hin|]).
    destruct Hin.
Qed.

(** A name of the manifest may resolve to a class the builder also uses as
    a default: here a watcher spec names [LocalFS], and the build calls it,
    although [service.downloader] is absent. *)
Lemma manifest_name_may_resolve_to_LocalFS :
  downloader (service localfs_watcher) = None /\
  fst (build_app localfs_watcher w0) = Ok toy_consumer /\
  In (EvCall LocalFS [] []) (log (snd (build_app localfs_watcher w0))) /\
  named_by_manifest localfs_watcher
    (registry (snd (configure localfs_watcher w0))) LocalFS.
Proof.
  split; [reflexivity|]. split; [reflexivity|]. split.
  - assert (E : log (snd (build_app localfs_watcher w0)) =
      [EvApplyDefaultEnabled (plugins localfs_watcher);
       EvApplyConfigs (plugins localfs_watcher);
       EvCall StdOut [] [];
       EvCall Engine [PNone; PClass HumanReadableFormat] [];
       EvCall Interactive [PInst StdOut [] []; PClass LocalFS; toy_engine] [];
       EvGetComponent "insights_messaging.downloaders.localfs.LocalFS";
       EvCall LocalFS [] []]) by reflexivity.
    rewrite E. do 6 right. by left.
  - exists "insights_messaging.downloaders.localfs.LocalFS".
    split; [by left|reflexivity].
Qed.

(** *** Further runs *)

Lemma closure_is_None_iff_witness :
  @_get_target_components bare (builder [] (targets ["pkg.a"]))
    (@Build_world bare ["pkg.a.x"; "pkg.b.z"] []) =
  (Ok None, @Build_world bare ["pkg.a.x"; "pkg.b.z"] []).
Proof.
  apply (proj2 (@closure_is_None_iff bare (builder [] (targets ["pkg.a"]))
                  (@Build_world bare ["pkg.a.x"; "pkg.b.z"] []))).
  right. intros c _. reflexivity.
Defined.

Lemma closure_ignores_order_and_repetition_witness :
  _get_target_components (builder [] (targets ["pkg.a"; "pkg.b"])) loaded_ab =
  _get_target_components (builder [] (targets ["pkg.b"; "pkg.a"; "pkg.b"])) loaded_ab.
Proof.
  apply (closure_ignores_order_and_repetition
           (builder [] (targets ["pkg.a"; "pkg.b"]))
           (builder [] (targets ["pkg.b"; "pkg.a"; "pkg.b"]))
           loaded_ab ["pkg.a"; "pkg.b"] ["pkg.b"; "pkg.a"; "pkg.b"]);
    [reflexivity | reflexivity |].
  intros p. simpl. tauto.
Defined.

Lemma nested_target_is_redundant_witness :
  _get_target_components (builder [] (targets ["pkg.a.x"; "pkg.a"])) loaded_ab =
  _get_target_components (builder [] (targets ["pkg.a"])) loaded_ab.
Proof.
  apply (nested_target_is_redundant
           (builder [] (targets ["pkg.a"]))
           (builder [] (targets ["pkg.a.x"; "pkg.a"]))
           loaded_ab ["pkg.a"] "pkg.a" "pkg.a.x");
    [reflexivity | reflexivity | by left | reflexivity].
Defined.

Lemma empty_target_selects_everything_witness :
  selected (registry loaded_ab) [""] = ["pkg.a.x"; "pkg.a.y"; "pkg.b.z"] /\
  _get_target_components (builder [] (targets [""])) loaded_ab =
    (Ok (or_None (merge_subgraphs (registry loaded_ab)
                    ["pkg.a.x"; "pkg.a.y"; "pkg.b.z"])), loaded_ab).
Proof.
  apply (empty_target_selects_everything
           (builder [] (targets [""])) loaded_ab [""]);
    [reflexivity | by left].
Defined.

Lemma closure_keeps_last_entry_witness :
  exists closure : gmap string (gset string),
    @_get_target_components overlapping (builder [] (targets ["pkg.a"]))
      (@Build_world overlapping ["pkg.a.x"; "pkg.a.y"; "pkg.b.z"] []) =
    (Ok (Some closure),
     @Build_world overlapping ["pkg.a.x"; "pkg.a.y"; "pkg.b.z"] []) /\
    closure !! "shared" = Some {[ "pkg.a.y" ]}.
Proof.
  apply (@closure_keeps_last_entry overlapping
           (builder [] (targets ["pkg.a"]))
           (@Build_world overlapping ["pkg.a.x"; "pkg.a.y"; "pkg.b.z"] [])
           ["pkg.a"] ["pkg.a.x"] "pkg.a.y" []).
  - reflexivity.
  - discriminate.
  - reflexivity.
  - reflexivity.
  - intros c' [].
Defined.

Lemma more_targets_keep_closure_keys_witness :
  is_Some (merge_subgraphs (registry loaded_ab)
             (selected (registry loaded_ab) ["pkg.b"; "pkg.a"]) !! "dep.one").
Proof.
  apply (more_targets_keep_closure_keys (registry loaded_ab)
           ["pkg.a"] ["pkg.b"; "pkg.a"] "dep.one").
  - intros p [<-|[]]. right. by left.
  - exists ∅. by vm_compute.
Defined.

Lemma configuration_precedes_assembly_witness :
  exists rest,
    log (snd (build_app (builder ["pkg.a"; "pkg.b"] no_service) w0)) =
      log w0 ++ load_events ["pkg.a"; "pkg.b"]
            ++ [EvApplyDefaultEnabled (plugins (builder ["pkg.a"; "pkg.b"] no_service));
                EvApplyConfigs (plugins (builder ["pkg.a"; "pkg.b"] no_service))]
            ++ rest /\
    Forall assembly_event rest /\
    registry (snd (build_app (builder ["pkg.a"; "pkg.b"] no_service) w0)) =
      ["pkg.a.x"; "pkg.a.y"; "pkg.b.z"].
Proof.
  apply (configuration_precedes_assembly
           (builder ["pkg.a"; "pkg.b"] no_service) w0
           (snd (_load_plugins (builder ["pkg.a"; "pkg.b"] no_service) w0))).
  reflexivity.
Defined.

Lemma build_succeeds_iff_names_resolve_witness :
  exists con w', build_app four_watchers w0 = (Ok con, w').
Proof.
  apply (proj2 (build_succeeds_iff_names_resolve four_watchers w0
                  (snd (configure four_watchers w0)) eq_refl)).
  intros n Hn. simpl in Hn.
  destruct Hn as [<-|[<-|[<-|[<-|[]]]]]; by eexists.
Defined.

Lemma build_failures_witness :
  (exists pre p post,
     default [] (packages (plugins (builder ["pkg.a"; "pkg.missing"] no_service)))
       = pre ++ p :: post /\
     LoadFailure "pkg.missing" = LoadFailure p /\
     log (snd (build_app (builder ["pkg.a"; "pkg.missing"] no_service) w0))
       = log w0 ++ load_events (pre ++ [p])) \/
  (exists w2 n,
     configure (builder ["pkg.a"; "pkg.missing"] no_service) w0 = (Ok tt, w2) /\
     LoadFailure "pkg.missing" = Exception (couldnt_find n) /\
     In n (referenced (builder ["pkg.a"; "pkg.missing"] no_service)) /\
     get_component (registry w2) n = None).
Proof.
  apply (build_failures (builder ["pkg.a"; "pkg.missing"] no_service) w0
           (LoadFailure "pkg.missing")
           (snd (build_app (builder ["pkg.a"; "pkg.missing"] no_service) w0))).
  reflexivity.
Defined.

Lemma failed_build_attaches_nothing_witness :
  exists new,
    log (snd (build_app (builder [] (watching ["svc.BothStats"; "svc.Missing"])) w0))
      = log w0 ++ new /\
    forall x t, ~ In (EvWatch x t) new.
Proof.
  apply (failed_build_attaches_nothing
           (builder [] (watching ["svc.BothStats"; "svc.Missing"])) w0
           (Exception "Couldn't find svc.Missing.")).
  reflexivity.
Defined.

Lemma attachments_come_last_in_watcher_order_witness :
  exists w2 before engine ws,
    configure four_watchers w0 = (Ok tt, w2) /\
    log (snd (build_app four_watchers w0)) =
      log w0 ++ before ++ flat_map (watch_events engine toy_consumer) ws /\
    (forall x t, ~ In (EvWatch x t) before) /\
    (exists f pub dl rest kw,
       toy_consumer = PInst f (pub :: dl :: engine :: rest) kw) /\
    Forall2 (fun spec x =>
               exists c, get_component (registry w2) (name spec) = Some c /\
                         x = instance_of c [] spec)
            (default [] (watchers (service four_watchers))) ws.
Proof.
  apply (attachments_come_last_in_watcher_order four_watchers w0 toy_consumer
           (snd (build_app four_watchers w0))).
  reflexivity.
Defined.

Lemma unresolved_publisher_stops_the_build_at_once_witness :
  build_app (builder ["pkg.a"] (with_publisher "svc.Missing")) w0 =
  (Raise (Exception "Couldn't find svc.Missing."),
   logged (snd (configure (builder ["pkg.a"] (with_publisher "svc.Missing")) w0))
          [EvGetComponent "svc.Missing"]).
Proof.
  apply (unresolved_publisher_stops_the_build_at_once
           (builder ["pkg.a"] (with_publisher "svc.Missing")) w0
           (snd (configure (builder ["pkg.a"] (with_publisher "svc.Missing")) w0))
           (spec_of "svc.Missing"));
    reflexivity.
Defined.

Lemma engine_is_constructed_once_witness :
  exists w2 before after (tc : option (gmap string (gset string))) fmt,
    configure (builder ["pkg.a"] (targets ["pkg.a"])) w0 = (Ok tt, w2) /\
    log (snd (build_app (builder ["pkg.a"] (targets ["pkg.a"])) w0)) =
      log w0 ++ before ++ EvCall Engine [py_targets tc; PClass fmt] [] :: after /\
    _get_target_components (builder ["pkg.a"] (targets ["pkg.a"])) w2 = (Ok tc, w2) /\
    match format (service (builder ["pkg.a"] (targets ["pkg.a"]))) with
    | None => fmt = HumanReadableFormat
    | Some n => get_component (registry w2) n = Some fmt
    end /\
    (tc = None \/ exists g, tc = Some g /\ g <> ∅) /\
    (forall a k, In (EvCall Engine a k) (before ++ after) ->
                 named_by_manifest (builder ["pkg.a"] (targets ["pkg.a"]))
                   (registry w2) Engine).
Proof.
  apply (engine_is_constructed_once (builder ["pkg.a"] (targets ["pkg.a"])) w0
           (returned (fst (build_app (builder ["pkg.a"] (targets ["pkg.a"])) w0)))
           (snd (build_app (builder ["pkg.a"] (targets ["pkg.a"])) w0))).
  reflexivity.
Defined.

Lemma slot_loaders_agree_with_load_witness :
  _get_consumer (builder [] (with_consumer consumer_spec))
    (PInst StdOut [] []) (PClass LocalFS) toy_engine w0 =
  _load (prepend_args [PInst StdOut [] []; PClass LocalFS; toy_engine] consumer_spec) w0.
Proof.
  destruct (slot_loaders_agree_with_load
              (builder [] (with_consumer consumer_spec)) consumer_spec
              (PInst StdOut [] []) (PClass LocalFS) toy_engine w0)
    as (_ & Hc).
  exact (Hc eq_refl).
Defined.

Lemma manifest_without_service_builds_defaults_witness :
  build_app (__init__ (Some no_service_manifest)) w0 =
  (Ok toy_consumer,
   logged (snd (configure (__init__ (Some no_service_manifest)) w0))
     [EvCall StdOut [] [];
      EvCall Engine [PNone; PClass HumanReadableFormat] [];
      EvCall Interactive [PInst StdOut [] []; PClass LocalFS; toy_engine] []]).
Proof.
  apply (manifest_without_service_builds_defaults no_service_manifest w0
           (snd (configure (__init__ (Some no_service_manifest)) w0)));
    reflexivity.
Defined.

End ToyRuns.
